(** * vcleaner: hidden-character scanner and cleaner

    A shallow embedding of [vcleaner.py] and the properties its
    specification states about it.

    - A Python [str] is a [list Z] of Unicode code points; [ord] is the
      identity on that representation and [len] is [length].
    - Counters are [nat] (Python integers that only ever grow from 0).
    - The dictionary [hidden_chars] is an association list kept in insertion
      order, which is the order [dict.items()] yields.
    - File access and [print] go through a small state-and-exception monad
      over a [world]: the files, and the lines printed so far.
    - The platform is POSIX: paths are separated by "/", [os.linesep] is
      LF, and the limits on names are those of Linux. *)

From Stdlib Require Import ZArith List Lia Sorted Permutation.
From stdpp Require Import base decidable list sorting strings gmap pretty.

Open Scope Z_scope.

(** ** Characters *)

Abbreviation character := Z.

(** [ord(char)]: a character is represented by its code point. *)
Definition ord (c : character) : Z := c.

(** The test written on lines 37 and 76 of the source:
    [(32 <= ascii_val <= 126) or ascii_val in [9, 10, 13]]. *)
Definition is_allowed (ascii_val : Z) : bool :=
  ((32 <=? ascii_val) && (ascii_val <=? 126))
  || bool_decide (ascii_val ∈ [9; 10; 13]).

(** The two tags of the specification's classifier, and the classifier the
    two loops share through [is_allowed]. *)
Inductive tag := Allowed | Hidden.

Global Instance tag_eq_dec : EqDecision tag.
Proof. solve_decision. Defined.

Definition classify (c : character) : tag :=
  if is_allowed (ord c) then Allowed else Hidden.

(** ** [count_words]

    [str.split()] without arguments: runs of whitespace separate the words
    and produce no empty word.  Whitespace is what [str.isspace] accepts. *)
Definition is_space (c : character) : bool :=
  ((9 <=? c) && (c <=? 13)) || ((28 <=? c) && (c <=? 32))
  || bool_decide (c ∈ [133; 160; 5760; 8232; 8233; 8239; 8287; 12288])
  || ((8192 <=? c) && (c <=? 8202)).

(** [split_from word text]: [word] holds, reversed, the characters of the
    word being read. *)
Fixpoint split_from (word text : list character) : list (list character) :=
  match text with
  | [] => match word with [] => [] | _ => [rev word] end
  | c :: rest =>
      if is_space c then
        match word with
        | [] => split_from [] rest
        | _ => rev word :: split_from [] rest
        end
      else split_from (c :: word) rest
  end.

Definition split (text : list character) : list (list character) :=
  split_from [] text.

Definition count_words (text : list character) : nat :=
  let words := split text in
  length words.

(** ** The loop of [clean_text_file] (lines 33-40) *)

Definition clean_step (st : list character * nat) (char : character)
  : list character * nat :=
  let '(cleaned, hidden_count) := st in
  let ascii_val := ord char in
  if is_allowed ascii_val then (cleaned ++ [char], hidden_count)
  else (cleaned, (hidden_count + 1)%nat).

Definition clean_loop (content : list character) : list character * nat :=
  fold_left clean_step content ([], 0%nat).

(** ** The dictionary of [show_hidden_chars] *)

Abbreviation dict := (list (character * nat)).

(** [char in hidden_chars] *)
Definition dict_mem (k : character) (d : dict) : bool :=
  bool_decide (k ∈ d.*1).

(** [hidden_chars[char]]; [None] is Python's [KeyError]. *)
Fixpoint dict_get (k : character) (d : dict) : option nat :=
  match d with
  | [] => None
  | (k', v) :: d' => if decide (k' = k) then Some v else dict_get k d'
  end.

(** [hidden_chars[char] = v]: an existing key keeps its place, a new key
    goes last. *)
Fixpoint dict_set (k : character) (v : nat) (d : dict) : dict :=
  match d with
  | [] => [(k, v)]
  | (k', v') :: d' =>
      if decide (k' = k) then (k', v) :: d' else (k', v') :: dict_set k v d'
  end.

(** ** Exceptions

    The exceptions the two operations can meet: what [open] raises, and the
    [KeyError] of a dictionary lookup.  [OSError] is an [OSError] of no
    more specific class (a name too long); [ValueError] is what [open]
    raises for a path with a null byte in it. *)
Inductive exn :=
  | FileNotFoundError (filename : string)
  | PermissionError (filename : string)
  | KeyError (k : character)
  | NotADirectoryError (filename : string)
  | IsADirectoryError (filename : string)
  | OSError (filename : string)
  | ValueError.

Inductive result (A : Type) :=
  | Ok (a : A)
  | Raise (e : exn).
Arguments Ok {A} a.
Arguments Raise {A} e.

(** ** The loop of [show_hidden_chars] (lines 71-80) *)

Definition show_step (st : result (dict * nat)) (char : character)
  : result (dict * nat) :=
  match st with
  | Raise e => Raise e
  | Ok (hidden_chars, total_hidden) =>
      let ascii_val := ord char in
      if negb (is_allowed ascii_val) then
        let hidden_chars :=
          if negb (dict_mem char hidden_chars)
          then dict_set char 0%nat hidden_chars
          else hidden_chars in
        match dict_get char hidden_chars with
        | None => Raise (KeyError char)
        | Some count =>
            Ok (dict_set char (count + 1)%nat hidden_chars,
                (total_hidden + 1)%nat)
        end
      else Ok (hidden_chars, total_hidden)
  end.

Definition show_loop (content : list character) : result (dict * nat) :=
  fold_left show_step content (Ok ([], 0%nat)).

(** ** [sorted(hidden_chars.items(), key=lambda x: x[1], reverse=True)]

    Python's [sorted] is stable, also with [reverse=True]: items with equal
    keys keep the order they had.  A stable insertion sort stands for it. *)
Definition key (x : character * nat) : nat := x.2.

Fixpoint insert_desc (x : character * nat) (l : dict) : dict :=
  match l with
  | [] => [x]
  | y :: l' =>
      if (key y <=? key x)%nat then x :: y :: l' else y :: insert_desc x l'
  end.

Definition sorted_desc (items : dict) : dict :=
  foldr insert_desc [] items.

(** ** Files and standard output

    [files] tells what the paths name.  A file holds the characters its
    bytes decode to ([errors="ignore"] drops what does not decode).
    [Protected] is a file the process may neither read nor write,
    [Directory] a directory.  [no_dir] lists paths whose directory does not
    exist, whatever else is listed: nothing can be opened or created there.
    What a path that [files] and [no_dir] do not list names is settled by
    [path_status] below. *)
Inductive node :=
  | Regular (data : list character)
  | Protected
  | Directory.

(** A line on standard output: the argument of one [print] call.  The text
    of an exception is the runtime's, so [print(f"Error: {e}")] is recorded
    with the exception it formats. *)
Inductive out_line :=
  | Text (s : string)
  | ErrorText (e : exn).

Record world := World {
  files : gmap string node;
  no_dir : gset string;
  stdout : list out_line
}.

(** Computations that read and change the world and may raise. *)
Definition M (A : Type) : Type := world → result A * world.

Global Instance M_ret : MRet M := λ A a w, (Ok a, w).

Global Instance M_bind : MBind M := λ A B f m w,
  match m w with
  | (Ok a, w') => f a w'
  | (Raise e, w') => (Raise e, w')
  end.

Definition lift {A} (r : result A) : M A := λ w, (r, w).

Definition try_except {A} (body : M A) (handler : exn → M A) : M A := λ w,
  match body w with
  | (Ok a, w') => (Ok a, w')
  | (Raise e, w') => handler e w'
  end.

Definition print (s : string) : M () := λ w,
  (Ok (), World (files w) (no_dir w) (stdout w ++ [Text s])).

Definition print_error (e : exn) : M () := λ w,
  (Ok (), World (files w) (no_dir w) (stdout w ++ [ErrorText e])).

Fixpoint for_each {A} (l : list A) (body : A → M ()) : M () :=
  match l with
  | [] => mret ()
  | x :: l' => body x;; for_each l' body
  end.

(** Text mode reads with universal newlines: CR LF and a lone CR arrive as
    LF. *)
Fixpoint universal_newlines (data : list character) : list character :=
  match data with
  | [] => []
  | c :: rest =>
      if c =? 13 then
        match rest with
        | d :: rest' =>
            if d =? 10 then 10 :: universal_newlines rest'
            else 10 :: universal_newlines rest
        | [] => [10]
        end
      else c :: universal_newlines rest
  end.

(** ** Paths

    How the system resolves a path: name by name from the left, "." and
    empty names skipped, ".." going up.  A name longer than [NAME_MAX] or a
    path of [PATH_MAX] bytes is refused, a name that is missing or a file
    where a directory is needed stops the walk, and a path that ends in "/"
    or "/." demands a directory.  The root and the working directory exist;
    any other directory exists when the world lists it or lists a path
    under it.  Links are not resolved: a world lists the files under the
    paths the program is given. *)

Definition NAME_MAX : nat := 255.
Definition PATH_MAX : nat := 4096.

Definition slash : Ascii.ascii := Ascii.ascii_of_nat 47.

Fixpoint has_null (path : string) : bool :=
  match path with
  | EmptyString => false
  | String a rest => Ascii.eqb a Ascii.zero || has_null rest
  end.

(** The names between the slashes: "a//b/" gives "a", "", "b", "". *)
Fixpoint components_from (name path : string) : list string :=
  match path with
  | EmptyString => [name]
  | String a rest =>
      if Ascii.eqb a slash then name :: components_from "" rest
      else components_from (name +:+ String a "") rest
  end.

Definition components (path : string) : list string :=
  components_from "" path.

(** The names that count. *)
Definition names (path : string) : list string :=
  filter (λ name, name ≠ "" ∧ name ≠ ".") (components path).

Definition root (path : string) : string :=
  match path with
  | String a _ => if Ascii.eqb a slash then "/" else ""
  | EmptyString => ""
  end.

Fixpoint join (names : list string) : string :=
  match names with
  | [] => ""
  | [name] => name
  | name :: rest => name +:+ "/" +:+ join rest
  end.

(** A place is spelled by the names that lead to it from the root or from
    the working directory, the last one first.  [step] goes one name
    further; ".." goes up, except above the root, and above the working
    directory it stays in the spelling. *)
Definition step (root : string) (place : list string) (name : string)
  : list string :=
  if bool_decide (name = "..") then
    match place with
    | top :: below => if bool_decide (top = "..") then name :: place else below
    | [] => if bool_decide (root = "/") then [] else [name]
    end
  else name :: place.

Definition spelling (root : string) (place : list string) : string :=
  root +:+ join (rev place).

(** The spelling under which a world lists a file: "./a//b" and "c/../a/b"
    are "a/b". *)
Definition canon (path : string) : string :=
  spelling (root path) (fold_left (step (root path)) (names path) []).

(** The last name of the path, slashes after it aside. *)
Definition last_name (path : string) : option string :=
  last (filter (λ name, name ≠ "") (components path)).

(** The path ends in "." (with or without slashes after it), or in a name
    with a slash after it: it can only name a directory. *)
Definition trailing_dot (path : string) : bool :=
  bool_decide (last_name path = Some ".").

Definition trailing_slash (path : string) : bool :=
  bool_decide (last (components path) = Some "")
  && negb (bool_decide (last_name path = Some "."))
  && negb (bool_decide (last_name path = Some "..")).

(** What a path leads to: the errors are those of the system
    ([ENOENT], [ENOTDIR], [ENAMETOOLONG]), and [Invalid] is a path Python
    refuses before it asks the system. *)
Inductive status :=
  | Found (n : node)
  | NoEntry
  | NotDir
  | TooLong
  | Invalid.

(** What the world lists at a spelling; a spelling with a listed path
    under it is a directory. *)
Definition listed (fs : gmap string node) (here : string) : option node :=
  match fs !! here with
  | Some n => Some n
  | None =>
      if existsb (λ path, String.prefix (here +:+ "/") (canon path))
           (map_to_list fs).*1
      then Some Directory
      else None
  end.

(** [walk fs root place names] goes on from [place] along [names]. *)
Fixpoint walk (fs : gmap string node) (root : string) (place names : list string)
  : status :=
  match names with
  | [] => Found Directory
  | name :: rest =>
      if (NAME_MAX <? String.length name)%nat then TooLong
      else
        let place' := step root place name in
        if bool_decide (name = "..") then walk fs root place' rest
        else
          match listed fs (spelling root place'), rest with
          | None, _ => NoEntry
          | Some n, [] => Found n
          | Some Directory, _ => walk fs root place' rest
          | Some _, _ => NotDir
          end
  end.

(** What opening [path] for reading meets.  What the world lists under the
    very path comes first, then a directory declared missing. *)
Definition path_status (w : world) (path : string) : status :=
  match files w !! path with
  | Some n => Found n
  | None =>
      if bool_decide (path ∈ no_dir w) then NoEntry
      else if has_null path then Invalid
      else if (PATH_MAX <=? String.length path)%nat then TooLong
      else if bool_decide (path = "") then NoEntry
      else
        match walk (files w) (root path) [] (names path) with
        | Found Directory => Found Directory
        | Found n =>
            if trailing_slash path || trailing_dot path then NotDir
            else Found n
        | s => s
        end
  end.

(** The exception [open] raises for a path it cannot open. *)
Definition open_exception (path : string) (s : status) : exn :=
  match s with
  | Found Protected => PermissionError path
  | Found Directory => IsADirectoryError path
  | NotDir => NotADirectoryError path
  | TooLong => OSError path
  | Invalid => ValueError
  | Found (Regular _) | NoEntry => FileNotFoundError path
  end.

(** [with open(path, "r", encoding="utf-8", errors="ignore") as f:
    content = f.read()] *)
Definition read_text (path : string) : M (list character) := λ w,
  match path_status w path with
  | Found (Regular data) => (Ok (universal_newlines data), w)
  | s => (Raise (open_exception path s), w)
  end.

(** [os.linesep], and what text mode writes for the characters given to
    [f.write]: every LF becomes the line separator. *)
Definition os_linesep : list character := [10].

Definition to_linesep (text : list character) : list character :=
  c ← text; if c =? 10 then os_linesep else [c].

(** The directory in which the last name of [path] is looked up exists. *)
Definition parent_exists (w : world) (path : string) : bool :=
  match walk (files w) (root path) [] (removelast (names path)) with
  | Found Directory => true
  | _ => false
  end.

(** The exception of [open(path, "w")], if it raises.  A last name that
    does not exist is created in a directory that exists; with a slash
    after it, it is refused as a directory. *)
Definition write_error (w : world) (path : string) : option exn :=
  match path_status w path with
  | Found (Regular _) => None
  | NoEntry =>
      if bool_decide (path ∈ no_dir w) || bool_decide (path = "")
         || negb (parent_exists w path) || trailing_dot path
      then Some (FileNotFoundError path)
      else if trailing_slash path then Some (IsADirectoryError path)
      else None
  | NotDir =>
      match walk (files w) (root path) [] (names path) with
      | Found _ =>
          if trailing_slash path then Some (IsADirectoryError path)
          else Some (NotADirectoryError path)
      | _ => Some (NotADirectoryError path)
      end
  | s => Some (open_exception path s)
  end.

(** The files after [data] is written at [path]: [path], its spelling
    [canon path] and every listed path with that spelling hold the data. *)
Definition store (path : string) (data : list character)
    (fs : gmap string node) : gmap string node :=
  <[path := Regular data]>
    (<[canon path := Regular data]>
       (map_imap
          (λ name n,
             Some (if bool_decide (canon name = canon path) then Regular data
                   else n))
          fs)).

(** [with open(path, "w", encoding="utf-8") as f: f.write(text)] *)
Definition write_text (path : string) (text : list character) : M () := λ w,
  match write_error w path with
  | Some e => (Raise e, w)
  | None =>
      (Ok (),
       World (store path (to_linesep text) (files w)) (no_dir w) (stdout w))
  end.

Definition NL : string := String (Ascii.ascii_of_nat 10) "".

(** ** [clean_text_file] *)

Definition clean_text_file (input_file output_file : string) : M () :=
  try_except
    (content ← read_text input_file;
     let original_length := length content in
     let original_words := count_words content in
     print (NL +:+ "Original length: " +:+ pretty original_length
            +:+ " characters");;
     print ("Number of Words: " +:+ pretty original_words);;
     let '(cleaned, hidden_count) := clean_loop content in
     let cleaned_length := length cleaned in
     let cleaned_words := count_words cleaned in
     let hidden_removed := hidden_count in
     write_text output_file cleaned;;
     print ("Cleaned Length: " +:+ pretty cleaned_length +:+ " characters");;
     print ("Invisible characters removed: " +:+ pretty hidden_removed);;
     print ("Words count: " +:+ pretty cleaned_words);;
     print ("Clean version of file saved to: " +:+ output_file +:+ NL))
    (λ e,
       match e with
       | FileNotFoundError _ =>
           print ("Error: File '" +:+ input_file +:+ "' not found!")
       | _ => print_error e
       end).

(** ** [show_hidden_chars] *)

(** The line printed for one item of the sorted tally (line 88). *)
Definition find_line (item : character * nat) : string :=
  let '(char, count) := item in
  "  Find (ASCII " +:+ pretty (ord char) +:+ "): " +:+ pretty count
  +:+ " characters".

Definition show_hidden_chars (input_file : string) : M () :=
  try_except
    (content ← read_text input_file;
     let original_length := length content in
     let original_words := count_words content in
     '(hidden_chars, total_hidden) ← lift (show_loop content);
     print "";;
     match hidden_chars with
     | _ :: _ =>
         print "Invisible characters found:";;
         for_each (sorted_desc hidden_chars) (λ item, print (find_line item));;
         print (" Total Invisible Characters: " +:+ pretty total_hidden
                +:+ " characters")
     | [] => print "No hidden characters found! Your file is clean"
     end;;
     print ("  Original Length: " +:+ pretty original_length);;
     print ("  Number of Words: " +:+ pretty original_words +:+ NL))
    (λ e,
       match e with
       | FileNotFoundError _ =>
           print ("Error: File '" +:+ input_file +:+ "' not found!")
       | _ => λ w, (Raise e, w)
       end).

(** ** [main] (lines 100-126)

    [argv] is [sys.argv].  The tests on [len(sys.argv)] and the indexing
    they guard are the cases of the list: fewer than two items, a command
    alone, a command with its arguments. *)

Definition TAB : string := String (Ascii.ascii_of_nat 9) "".

Definition HELP_TEXT : string :=
  "Usage:" +:+ NL
  +:+ TAB +:+ "python script.py show <input_file>" +:+ NL
  +:+ TAB +:+ "python script.py clean <input_file> [output_file]" +:+ NL
  +:+ "Example:" +:+ NL
  +:+ TAB +:+ "python script.py clean dirty.txt clean.txt" +:+ NL
  +:+ TAB +:+ "python script.py show dirty.txt" +:+ NL.

Definition main (argv : list string) : M Z :=
  match argv with
  | [] | [_] => print HELP_TEXT;; mret 1
  | _ :: command :: args =>
      if decide (command = "clean") then
        match args with
        | [] => print "Error: Specify input file"
        | input_file :: rest =>
            let output_file :=
              match rest with
              | output_file :: _ => output_file
              | [] => "cleaned_" +:+ input_file
              end in
            clean_text_file input_file output_file
        end;;
        mret 0
      else if decide (command = "show") then
        match args with
        | [] => print "Error: Specify input file"
        | input_file :: _ => show_hidden_chars input_file
        end;;
        mret 0
      else
        print "Unknown command. Use 'clean' or 'show'";; mret 1
  end.

(** * Vocabulary of the properties *)

(** The code points of an ASCII literal. *)
Definition codes (s : string) : list character :=
  (λ a, Z.of_nat (Ascii.nat_of_ascii a)) <$> String.list_ascii_of_string s.

(** The range the specification gives for Allowed characters. *)
Definition in_allowed_range (v : Z) : Prop :=
  32 ≤ v ≤ 126 ∨ v = 9 ∨ v = 10 ∨ v = 13.

(** [open(path, "w")] succeeds. *)
Definition writable (w : world) (path : string) : bool :=
  match write_error w path with
  | None => true
  | Some _ => false
  end.

(** What one Hidden character does to the dictionary: its count goes up by
    one where it stands, or it enters last with count 1. *)
Fixpoint tally_add (c : character) (d : dict) : dict :=
  match d with
  | [] => [(c, 1%nat)]
  | (k, v) :: d' =>
      if decide (k = c) then (k, S v) :: d' else (k, v) :: tally_add c d'
  end.

Definition tally_step (d : dict) (c : character) : dict :=
  if decide (classify c = Hidden) then tally_add c d else d.

Definition tally (content : list character) : dict :=
  fold_left tally_step content [].

(** How often [c] occurs in [content]. *)
Definition occurrences (c : character) (content : list character) : nat :=
  length (filter (λ x, x = c) content).

(** The index of the first occurrence of [c] in [content] (its length when
    there is none). *)
Fixpoint first_pos (c : character) (content : list character) : nat :=
  match content with
  | [] => 0
  | x :: content' => if decide (x = c) then 0 else S (first_pos c content')
  end.

Definition with_count (content : list character) (c : character)
  : character * nat :=
  (c, occurrences c content).

(** [x] is listed before [y]: it has the larger count, or the same count
    and [x] comes first by [earlier]. *)
Definition listed_before (earlier : relation (character * nat))
    (x y : character * nat) : Prop :=
  (key y < key x)%nat ∨ (key x = key y ∧ earlier x y).

(** What [show_hidden_chars] prints for a file it could read. *)
Definition show_report (content : list character) : list out_line :=
  [Text ""] ++
  match tally content with
  | [] => [Text "No hidden characters found! Your file is clean"]
  | _ =>
      [Text "Invisible characters found:"]
      ++ (Text ∘ find_line <$> sorted_desc (tally content))
      ++ [Text (" Total Invisible Characters: "
                +:+ pretty (length (filter (λ c, classify c = Hidden) content))
                +:+ " characters")]
  end
  ++ [Text ("  Original Length: " +:+ pretty (length content));
      Text ("  Number of Words: " +:+ pretty (count_words content) +:+ NL)].

(** Worlds to run the operations in: a file with two zero-width spaces,
    and a file the process may not open. *)
Definition dirty_content : list character :=
  codes "hello" ++ [8203] ++ codes "world" ++ [8203] ++ codes "test".

Definition dirty_world : world :=
  World {[ "dirty.txt" := Regular dirty_content ]} ∅ [].

Definition locked_world : world :=
  World {[ "locked.txt" := Protected ]} ∅ [].

(** The number of words that start in [text]; [inside] tells whether the
    character before [text] belongs to a word. *)
Fixpoint word_starts (inside : bool) (text : list character) : nat :=
  match text with
  | [] => 0
  | c :: rest =>
      if is_space c then word_starts false rest
      else ((if inside then 0 else 1) + word_starts true rest)%nat
  end.

(** A world where the output may not be written, and one where the
    directory of the output is missing. *)
Definition protected_out_world : world :=
  World {[ "dirty.txt" := Regular dirty_content; "out.txt" := Protected ]}
    ∅ [].

Definition missing_dir_world : world :=
  World {[ "dirty.txt" := Regular dirty_content ]} {[ "nodir/out.txt" ]} [].

(** The tally of [dirty_content]. *)
Definition dirty_tally : dict := [(8203, 2%nat)].

(** A file with a CR LF line end and a lone CR. *)
Definition crlf_world : world :=
  World {[ "crlf.txt" := Regular (codes "a" ++ [13; 10] ++ codes "b" ++ [13]) ]}
    ∅ [].

(** A name of 300 bytes. *)
Definition long_name : string := String.concat "" (replicate 300 "a").

(** A file with three hidden characters, two of them equally frequent. *)
Definition mixed_content : list character :=
  codes "a" ++ [8205] ++ codes "b" ++ [8204; 8204] ++ codes "c"
  ++ [8203; 8204].

Definition mixed_world : world :=
  World {[ "mixed.txt" := Regular mixed_content ]} ∅ [].

(** * Properties *)

(** Unfolds the plumbing of [M]. *)
Ltac unfold_io :=
  unfold try_except, mbind, M_bind, lift.

(** ** The classifier *)

Lemma is_allowed_true v : is_allowed v = true ↔ in_allowed_range v.
Proof.
  unfold is_allowed, in_allowed_range.
  rewrite orb_true_iff, andb_true_iff, !Z.leb_le, bool_decide_eq_true.
  rewrite !elem_of_cons, elem_of_nil. tauto.
Qed.

Lemma is_allowed_false v : is_allowed v = false ↔ ¬ in_allowed_range v.
Proof. rewrite <- is_allowed_true. destruct (is_allowed v); naive_solver. Qed.

Lemma classify_Allowed c : classify c = Allowed ↔ is_allowed (ord c) = true.
Proof. unfold classify. destruct (is_allowed (ord c)); naive_solver. Qed.

Lemma classify_Hidden c : classify c = Hidden ↔ is_allowed (ord c) = false.
Proof. unfold classify. destruct (is_allowed (ord c)); naive_solver. Qed.

Lemma classify_not_Allowed c : classify c ≠ Allowed ↔ classify c = Hidden.
Proof. destruct (classify c); naive_solver. Qed.

(** ** The clean loop *)

Lemma clean_step_classify cleaned n c :
  clean_step (cleaned, n) c =
  match classify c with
  | Allowed => (cleaned ++ [c], n)
  | Hidden => (cleaned, (n + 1)%nat)
  end.
Proof. unfold clean_step, classify. by destruct (is_allowed (ord c)). Qed.

Lemma clean_loop_from cleaned n content :
  fold_left clean_step content (cleaned, n) =
  (cleaned ++ filter (λ c, classify c = Allowed) content,
   (n + length (filter (λ c, classify c = Hidden) content))%nat).
Proof.
  revert cleaned n.
  induction content as [|c content IH]; intros cleaned n; cbn [fold_left].
  - by rewrite app_nil_r, Nat.add_0_r.
  - rewrite clean_step_classify, !filter_cons.
    destruct (classify c) eqn:Hc; rewrite IH.
    + rewrite decide_True, decide_False by done.
      by rewrite <- app_assoc.
    + rewrite decide_False, decide_True by done.
      simpl. f_equal. lia.
Qed.

Lemma clean_loop_eq content :
  clean_loop content =
  (filter (λ c, classify c = Allowed) content,
   length (filter (λ c, classify c = Hidden) content)).
Proof. unfold clean_loop. by rewrite clean_loop_from. Qed.

Lemma length_filter_classify (content : list character) :
  (length (filter (λ c, classify c = Allowed) content)
   + length (filter (λ c, classify c = Hidden) content))%nat
  = length content.
Proof.
  induction content as [|c content IH]; [done|].
  rewrite !filter_cons.
  destruct (classify c); simpl;
    repeat (rewrite decide_True by done || rewrite decide_False by done);
    simpl; lia.
Qed.

Lemma filter_all_Allowed (content : list character) :
  Forall (λ c, classify c = Allowed) content →
  filter (λ c, classify c = Allowed) content = content
  ∧ filter (λ c, classify c = Hidden) content = [].
Proof.
  induction 1 as [|c content Hc _ [IH1 IH2]]; [done|].
  rewrite !filter_cons, decide_True, decide_False by congruence.
  by rewrite IH1, IH2.
Qed.

(** ** Running [clean_text_file] *)

Lemma path_status_found w path n :
  files w !! path = Some n → path_status w path = Found n.
Proof. intros Hn. unfold path_status. by rewrite Hn. Qed.

Lemma read_text_regular path w data :
  files w !! path = Some (Regular data) →
  read_text path w = (Ok (universal_newlines data), w).
Proof. intros Hn. unfold read_text. by rewrite (path_status_found _ _ _ Hn). Qed.

Lemma read_text_protected path w :
  files w !! path = Some Protected →
  read_text path w = (Raise (PermissionError path), w).
Proof. intros Hn. unfold read_text. by rewrite (path_status_found _ _ _ Hn). Qed.

Lemma read_text_no_entry path w :
  path_status w path = NoEntry →
  read_text path w = (Raise (FileNotFoundError path), w).
Proof. intros Hs. unfold read_text. by rewrite Hs. Qed.

(** [open] raises [FileNotFoundError] exactly for a path that does not
    exist. *)
Lemma read_text_not_found_iff path w filename :
  (read_text path w).1 = Raise (FileNotFoundError filename) ↔
  path_status w path = NoEntry ∧ filename = path.
Proof.
  unfold read_text.
  destruct (path_status w path) as [[data| |]| | | |]; cbn;
    split; try (intros [= ->]; done); try (intros [[=] _]; done).
  by intros [_ ->].
Qed.

Lemma read_text_cases path w :
  (∃ content, read_text path w = (Ok content, w))
  ∨ (∃ e, read_text path w = (Raise e, w)).
Proof.
  unfold read_text.
  destruct (path_status w path) as [[data| |]| | | |]; eauto.
Qed.

Lemma to_linesep_posix text : to_linesep text = text.
Proof.
  unfold to_linesep. induction text as [|c text IH]; [done|].
  rewrite bind_cons, IH. unfold os_linesep.
  destruct (c =? 10) eqn:Hc; [|done].
  apply Z.eqb_eq in Hc. by subst.
Qed.

Lemma store_lookup path data fs : store path data fs !! path = Some (Regular data).
Proof. apply lookup_insert_eq. Qed.

Lemma write_text_writable path text w :
  writable w path = true →
  write_text path text w =
  (Ok (), World (store path text (files w)) (no_dir w) (stdout w)).
Proof.
  unfold writable, write_text.
  destruct (write_error w path); [done|].
  by rewrite to_linesep_posix.
Qed.

Lemma write_text_unwritable path text w :
  writable w path = false →
  ∃ e, write_error w path = Some e ∧ write_text path text w = (Raise e, w).
Proof.
  unfold writable, write_text.
  destruct (write_error w path) as [e|]; [|done]. by exists e.
Qed.

Lemma write_error_protected path w :
  files w !! path = Some Protected →
  write_error w path = Some (PermissionError path).
Proof.
  intros Hn. unfold write_error. by rewrite (path_status_found _ _ _ Hn).
Qed.

Lemma write_error_no_dir path w :
  files w !! path = None → path ∈ no_dir w →
  write_error w path = Some (FileNotFoundError path).
Proof.
  intros Hn Hdir. unfold write_error, path_status.
  rewrite Hn. rewrite !(bool_decide_true (path ∈ no_dir w)) by done. done.
Qed.

Lemma clean_text_file_run input_file output_file w data :
  files w !! input_file = Some (Regular data) →
  writable w output_file = true →
  let content := universal_newlines data in
  let cleaned := filter (λ c, classify c = Allowed) content in
  let hidden := filter (λ c, classify c = Hidden) content in
  clean_text_file input_file output_file w =
  (Ok (),
   World (store output_file cleaned (files w)) (no_dir w)
     (stdout w ++
      [Text (NL +:+ "Original length: " +:+ pretty (length content)
             +:+ " characters");
       Text ("Number of Words: " +:+ pretty (count_words content));
       Text ("Cleaned Length: " +:+ pretty (length cleaned)
             +:+ " characters");
       Text ("Invisible characters removed: " +:+ pretty (length hidden));
       Text ("Words count: " +:+ pretty (count_words cleaned));
       Text ("Clean version of file saved to: " +:+ output_file +:+ NL)])).
Proof.
  intros Hin Hout content cleaned hidden.
  unfold clean_text_file. unfold_io.
  rewrite (read_text_regular _ _ _ Hin). fold content. rewrite clean_loop_eq. fold cleaned hidden.
  cbn [print files no_dir stdout].
  rewrite write_text_writable by done.
  cbn [print files no_dir stdout].
  by rewrite <- !app_assoc.
Qed.

(** ** The tally loop *)

Lemma dict_mem_nil c : dict_mem c [] = false.
Proof. apply bool_decide_eq_false. rewrite fmap_nil. apply not_elem_of_nil. Qed.

Lemma dict_mem_cons c k v d :
  dict_mem c ((k, v) :: d) = if decide (k = c) then true else dict_mem c d.
Proof.
  unfold dict_mem. rewrite fmap_cons. cbn [fst].
  destruct (decide (k = c)) as [->|Hk].
  - apply bool_decide_eq_true. left.
  - apply bool_decide_ext. rewrite elem_of_cons. intuition congruence.
Qed.

Lemma tally_update c d :
  let d' := if negb (dict_mem c d) then dict_set c 0%nat d else d in
  ∃ count,
    dict_get c d' = Some count
    ∧ dict_set c (count + 1)%nat d' = tally_add c d.
Proof.
  induction d as [|[k v] d IH].
  - exists 0%nat. rewrite dict_mem_nil. cbn. by rewrite !decide_True.
  - rewrite dict_mem_cons. cbn [dict_set tally_add].
    destruct (decide (k = c)) as [->|Hk].
    + exists v. cbn. rewrite !decide_True by done.
      by rewrite Nat.add_1_r.
    + destruct IH as (count & Hget & Hset). exists count.
      destruct (negb (dict_mem c d)); cbn [dict_get dict_set];
        rewrite !decide_False by done; by rewrite Hset.
Qed.

Lemma show_step_classify d n c :
  show_step (Ok (d, n)) c =
  match classify c with
  | Allowed => Ok (d, n)
  | Hidden => Ok (tally_add c d, S n)
  end.
Proof.
  unfold show_step, classify.
  destruct (is_allowed (ord c)); cbn [negb]; [done|].
  destruct (tally_update c d) as (count & -> & ->).
  by rewrite Nat.add_1_r.
Qed.

Lemma show_loop_from d n content :
  fold_left show_step content (Ok (d, n)) =
  Ok (fold_left tally_step content d,
      (n + length (filter (λ c, classify c = Hidden) content))%nat).
Proof.
  revert d n.
  induction content as [|c content IH]; intros d n; cbn [fold_left].
  - by rewrite Nat.add_0_r.
  - rewrite show_step_classify, filter_cons. unfold tally_step at 2.
    destruct (classify c) eqn:Hc; rewrite IH.
    + by rewrite !decide_False.
    + rewrite !decide_True by done. cbn [length]. do 2 f_equal. lia.
Qed.

Lemma show_loop_eq content :
  show_loop content =
  Ok (tally content, length (filter (λ c, classify c = Hidden) content)).
Proof. unfold show_loop. by rewrite show_loop_from. Qed.

(** ** What the tally holds *)

Lemma occurrences_snoc k content c :
  occurrences k (content ++ [c]) =
  if decide (c = k) then S (occurrences k content) else occurrences k content.
Proof.
  unfold occurrences. rewrite filter_app, length_app, filter_cons, filter_nil.
  destruct (decide (c = k)); cbn [length]; lia.
Qed.

Lemma occurrences_notin c content : c ∉ content → occurrences c content = 0%nat.
Proof.
  unfold occurrences. induction content as [|x content IH]; [done|].
  rewrite not_elem_of_cons. intros [Hx Hc].
  rewrite filter_cons_False by congruence. auto.
Qed.

Lemma first_pos_app_l c content rest :
  c ∈ content → first_pos c (content ++ rest) = first_pos c content.
Proof.
  induction content as [|x content IH]; [by rewrite elem_of_nil|].
  rewrite elem_of_cons. intros Hc. cbn.
  destruct (decide (x = c)); [done|].
  f_equal. apply IH. intuition congruence.
Qed.

Lemma first_pos_app_r c content rest :
  c ∉ content →
  first_pos c (content ++ rest) = (length content + first_pos c rest)%nat.
Proof.
  induction content as [|x content IH]; [done|].
  rewrite not_elem_of_cons. intros [Hx Hc]. cbn.
  rewrite decide_False by congruence. by rewrite IH.
Qed.

Lemma first_pos_lt c content : c ∈ content → (first_pos c content < length content)%nat.
Proof.
  induction content as [|x content IH]; [by rewrite elem_of_nil|].
  rewrite elem_of_cons. intros Hc. cbn.
  destruct (decide (x = c)); [lia|].
  apply -> Nat.succ_lt_mono. apply IH. intuition congruence.
Qed.

(** [first_pos] is the first occurrence. *)
Lemma first_pos_lookup c content :
  c ∈ content →
  content !! first_pos c content = Some c
  ∧ c ∉ take (first_pos c content) content.
Proof.
  induction content as [|x content IH]; [by rewrite elem_of_nil|].
  rewrite elem_of_cons. intros Hc. cbn.
  destruct (decide (x = c)) as [->|Hx]; cbn.
  - split; [done|apply not_elem_of_nil].
  - destruct IH as [IH1 IH2]; [intuition congruence|].
    split; [done|]. rewrite not_elem_of_cons. split; [congruence|done].
Qed.

Lemma tally_add_fresh c d : c ∉ d.*1 → tally_add c d = d ++ [(c, 1%nat)].
Proof.
  induction d as [|[k v] d IH]; [done|].
  rewrite fmap_cons, not_elem_of_cons. cbn. intros [Hk Hc].
  rewrite decide_False by congruence. by rewrite IH.
Qed.

Lemma tally_add_known c (g : character → nat) ks :
  NoDup ks → c ∈ ks →
  tally_add c ((λ k, (k, g k)) <$> ks) =
  (λ k, (k, if decide (c = k) then S (g k) else g k)) <$> ks.
Proof.
  induction 1 as [|k ks Hk Hnd IH]; [by rewrite elem_of_nil|].
  rewrite elem_of_cons, !fmap_cons. cbn [tally_add]. intros Hc.
  destruct (decide (k = c)) as [->|Hkc].
  - rewrite decide_True by done. f_equal.
    apply Forall_fmap_ext_1, Forall_forall. intros k Hin.
    rewrite decide_False; [done|]. by intros ->.
  - rewrite decide_False by congruence. f_equal.
    apply IH. intuition congruence.
Qed.

Lemma StronglySorted_ext_in {A} (R1 R2 : relation A) (l : list A) :
  (∀ x y, x ∈ l → y ∈ l → R1 x y → R2 x y) →
  StronglySorted R1 l → StronglySorted R2 l.
Proof.
  intros HR Hl. induction Hl as [|x l Hl IH Hx]; constructor.
  - apply IH. intros y z Hy Hz. apply HR; by right.
  - rewrite Forall_forall in *. intros y Hy.
    apply HR; [left|by right|by apply Hx].
Qed.

Lemma tally_snoc content c :
  tally (content ++ [c]) = tally_step (tally content) c.
Proof. unfold tally. by rewrite fold_left_app. Qed.

(** The tally lists the distinct Hidden characters of the content in the
    order of their first occurrence, each with the number of its
    occurrences. *)
Lemma tally_inv content :
  ∃ ks : list character,
    tally content = with_count content <$> ks
    ∧ NoDup ks
    ∧ (∀ c, c ∈ ks ↔ c ∈ content ∧ classify c = Hidden)
    ∧ StronglySorted
        (λ a b, (first_pos a content < first_pos b content)%nat) ks.
Proof.
  induction content as [|c content IH] using rev_ind.
  - exists []. split_and!; [done|constructor| |constructor].
    intros c. rewrite !elem_of_nil. tauto.
  - destruct IH as (ks & Hd & Hnd & Hks & Hsort).
    rewrite tally_snoc, Hd. unfold tally_step.
    assert (Hold : StronglySorted
      (λ a b, (first_pos a (content ++ [c]) < first_pos b (content ++ [c]))%nat) ks).
    { eapply StronglySorted_ext_in; [|exact Hsort].
      intros x y Hx%Hks Hy%Hks Hlt. cbv beta in *.
      rewrite !first_pos_app_l by tauto. done. }
    destruct (decide (classify c = Hidden)) as [Hc|Hc].
    + destruct (decide (c ∈ ks)) as [Hin|Hin].
      * exists ks. split_and!; [|done| |done].
        -- unfold with_count at 1. rewrite tally_add_known by done.
           apply Forall_fmap_ext_1, Forall_forall. intros k _.
           unfold with_count. by rewrite occurrences_snoc.
        -- intros k. rewrite Hks, elem_of_app, list_elem_of_singleton.
           apply Hks in Hin. intuition congruence.
      * assert (c ∉ content) by (rewrite Hks in Hin; tauto).
        exists (ks ++ [c]). split_and!.
        -- rewrite tally_add_fresh.
           2:{ rewrite <- list_fmap_compose.
               rewrite (list_fmap_ext _ id ks), list_fmap_id; done. }
           rewrite fmap_app. f_equal.
           ++ apply Forall_fmap_ext_1, Forall_forall. intros k Hk.
              unfold with_count. rewrite occurrences_snoc.
              rewrite decide_False; [done|]. by intros ->.
           ++ cbn. unfold with_count. rewrite occurrences_snoc.
              rewrite decide_True, occurrences_notin by done. done.
        -- apply NoDup_app. split_and!; [done| |apply NoDup_singleton].
           intros k Hk. rewrite list_elem_of_singleton. by intros ->.
        -- intros k. rewrite !elem_of_app, Hks, list_elem_of_singleton.
           intuition congruence.
        -- apply StronglySorted_app_2; [|done|repeat constructor].
           intros a b Ha%Hks ->%list_elem_of_singleton.
           rewrite first_pos_app_l by tauto.
           rewrite first_pos_app_r by done. cbn.
           rewrite decide_True by done.
           pose proof (first_pos_lt a content). intuition lia.
    + exists ks. split_and!; [|done| |done].
      * apply Forall_fmap_ext_1, Forall_forall. intros k Hk%Hks.
        unfold with_count. rewrite occurrences_snoc.
        rewrite decide_False; [done|]. intros ->. tauto.
      * intros k. rewrite Hks, elem_of_app, list_elem_of_singleton.
        intuition congruence.
Qed.

(** ** The sorted listing *)

Lemma insert_desc_Permutation x l : insert_desc x l ≡ₚ x :: l.
Proof.
  induction l as [|y l IH]; [done|]. cbn.
  destruct (key y <=? key x)%nat; [done|].
  rewrite IH. apply Permutation_swap.
Qed.

Lemma sorted_desc_Permutation items : sorted_desc items ≡ₚ items.
Proof.
  induction items as [|x items IH]; [done|].
  cbn. by rewrite insert_desc_Permutation, IH.
Qed.

Section stable_sort.
Context (earlier : relation (character * nat)).

Lemma listed_before_key x y :
  listed_before earlier x y → (key y ≤ key x)%nat.
Proof. unfold listed_before. lia. Qed.

Lemma listed_before_intro x y :
  (key y ≤ key x)%nat → earlier x y → listed_before earlier x y.
Proof.
  intros Hk He. unfold listed_before.
  destruct (decide (key y < key x)%nat); [by left|right].
  split; [lia|done].
Qed.

Lemma insert_desc_sorted x l :
  Forall (earlier x) l →
  StronglySorted (listed_before earlier) l →
  StronglySorted (listed_before earlier) (insert_desc x l).
Proof.
  intros Hx Hl. induction Hl as [|y l Hl IH Hy]; cbn.
  - repeat constructor.
  - apply Forall_cons in Hx as [Hxy Hx].
    destruct (key y <=? key x)%nat eqn:Hk.
    + apply Nat.leb_le in Hk. constructor; [by constructor|].
      constructor; [by apply listed_before_intro|].
      rewrite Forall_forall in *. intros z Hz.
      pose proof (listed_before_key _ _ (Hy z Hz)).
      apply listed_before_intro; [lia|by apply Hx].
    + apply Nat.leb_gt in Hk. constructor; [by apply IH|].
      rewrite insert_desc_Permutation. constructor; [|done].
      unfold listed_before. lia.
Qed.

(** [sorted_desc] is stable: among equal counts the order of [items]
    stays. *)
Lemma sorted_desc_sorted items :
  StronglySorted earlier items →
  StronglySorted (listed_before earlier) (sorted_desc items).
Proof.
  induction 1 as [|x items Hitems IH Hx]; cbn; [constructor|].
  apply insert_desc_sorted; [|done].
  by rewrite sorted_desc_Permutation.
Qed.

End stable_sort.

(** ** Running [show_hidden_chars] *)

Lemma for_each_print {A} (line : A → string) (l : list A) w :
  for_each l (λ item, print (line item)) w =
  (Ok (), World (files w) (no_dir w) (stdout w ++ (Text ∘ line <$> l))).
Proof.
  revert w. induction l as [|x l IH]; intros [fs nd out]; cbn.
  - by rewrite app_nil_r.
  - unfold mbind, M_bind. cbn. rewrite IH. cbn.
    by rewrite <- app_assoc.
Qed.

Lemma show_hidden_chars_read input_file w content :
  read_text input_file w = (Ok content, w) →
  show_hidden_chars input_file w =
  (Ok (), World (files w) (no_dir w) (stdout w ++ show_report content)).
Proof.
  intros Hin.
  unfold show_hidden_chars. unfold_io.
  rewrite Hin, show_loop_eq. unfold show_report.
  destruct (tally content) as [|item d] eqn:Hd.
  - cbn. by rewrite <- !app_assoc.
  - cbn [print files no_dir stdout]. rewrite for_each_print.
    cbn [print files no_dir stdout].
    by rewrite <- !app_assoc.
Qed.

Lemma show_hidden_chars_run input_file w data :
  files w !! input_file = Some (Regular data) →
  show_hidden_chars input_file w =
  (Ok (),
   World (files w) (no_dir w)
     (stdout w ++ show_report (universal_newlines data))).
Proof.
  intros Hin. apply show_hidden_chars_read. by apply read_text_regular.
Qed.

(** ** Splitting into words *)

Lemma split_from_nil word :
  split_from word [] = match word with [] => [] | _ => [rev word] end.
Proof. done. Qed.

Lemma split_from_space word u s v :
  is_space s = true →
  split_from word (u ++ s :: v) = split_from word u ++ split v.
Proof.
  intros Hs. revert word.
  induction u as [|c u IH]; intros word; cbn.
  - rewrite Hs. by destruct word.
  - destruct (is_space c); [|apply IH].
    destruct word; by rewrite IH.
Qed.

Lemma split_from_word word u :
  Forall (λ c, is_space c = false) u →
  split_from word u = split_from (rev u ++ word) [].
Proof.
  intros Hu. revert word.
  induction Hu as [|c u Hc Hu IH]; intros word; [done|].
  cbn [split_from]. rewrite Hc, IH. cbn [rev]. by rewrite <- app_assoc.
Qed.

Lemma split_word u :
  u ≠ [] → Forall (λ c, is_space c = false) u → split u = [u].
Proof.
  intros Hne Hu. unfold split. rewrite split_from_word by done.
  rewrite app_nil_r. cbn.
  destruct (rev u) as [|c r] eqn:Hr.
  - apply (f_equal (@rev _)) in Hr. by rewrite rev_involutive in Hr.
  - by rewrite <- Hr, rev_involutive.
Qed.

Lemma split_spaces text :
  Forall (λ c, is_space c = true) text → split text = [].
Proof.
  unfold split. induction 1 as [|c text Hc Htext IH]; [done|].
  cbn [split_from]. by rewrite Hc.
Qed.

Lemma split_from_nonempty word text : [] ∉ split_from word text.
Proof.
  assert (Hrev : ∀ c (w : list character), [] ≠ rev (c :: w)).
  { intros c w Hw. apply (f_equal (@rev _)) in Hw.
    by rewrite rev_involutive in Hw. }
  revert word. induction text as [|c text IH]; intros word; cbn [split_from].
  - destruct word; [apply not_elem_of_nil|].
    rewrite list_elem_of_singleton. apply Hrev.
  - destruct (is_space c); [|apply IH].
    destruct word; [apply IH|].
    rewrite not_elem_of_cons. split; [apply Hrev|apply IH].
Qed.

Lemma count_words_space u s v :
  is_space s = true →
  count_words (u ++ s :: v) = (count_words u + count_words v)%nat.
Proof.
  intros Hs. unfold count_words, split.
  by rewrite split_from_space, length_app.
Qed.

(** ** Failures of the two operations *)

Lemma clean_text_file_not_found input_file output_file w :
  path_status w input_file = NoEntry →
  clean_text_file input_file output_file w =
  (Ok (),
   World (files w) (no_dir w)
     (stdout w ++ [Text ("Error: File '" +:+ input_file +:+ "' not found!")])).
Proof.
  intros Hin. unfold clean_text_file. unfold_io.
  by rewrite (read_text_no_entry _ _ Hin).
Qed.

Lemma show_hidden_chars_not_found input_file w :
  path_status w input_file = NoEntry →
  show_hidden_chars input_file w =
  (Ok (),
   World (files w) (no_dir w)
     (stdout w ++ [Text ("Error: File '" +:+ input_file +:+ "' not found!")])).
Proof.
  intros Hin. unfold show_hidden_chars. unfold_io.
  by rewrite (read_text_no_entry _ _ Hin).
Qed.

Lemma show_hidden_chars_protected input_file w :
  files w !! input_file = Some Protected →
  show_hidden_chars input_file w = (Raise (PermissionError input_file), w).
Proof.
  intros Hin. unfold show_hidden_chars. unfold_io.
  by rewrite (read_text_protected _ _ Hin).
Qed.

Lemma clean_text_file_returns input_file output_file w :
  (clean_text_file input_file output_file w).1 = Ok ().
Proof.
  unfold clean_text_file. unfold_io.
  destruct (read_text_cases input_file w) as [[content ->]|[e ->]].
  - destruct (clean_loop content) as [cleaned hidden_count].
    cbn [print files no_dir stdout].
    match goal with
    | |- context [write_text _ _ ?w'] =>
        destruct (writable w' output_file) eqn:Hout
    end.
    + by rewrite (write_text_writable _ _ _ Hout).
    + destruct (write_text_unwritable _ cleaned _ Hout) as (e & _ & ->).
      by destruct e.
  - by destruct e.
Qed.

(** ** The counts of the tally add up *)

Lemma tally_add_sum c d : sum_list (tally_add c d).*2 = S (sum_list d.*2).
Proof.
  induction d as [|[k v] d IH]; [done|]. cbn [tally_add].
  destruct (decide (k = c)); rewrite !fmap_cons; cbn; [done|].
  rewrite IH. lia.
Qed.

Lemma tally_sum_from d content :
  sum_list (fold_left tally_step content d).*2 =
  (sum_list d.*2 + length (filter (λ c, classify c = Hidden) content))%nat.
Proof.
  revert d. induction content as [|c content IH]; intros d; cbn [fold_left].
  - by rewrite Nat.add_0_r.
  - rewrite IH, filter_cons. unfold tally_step.
    destruct (decide (classify c = Hidden)); [|done].
    rewrite tally_add_sum. cbn [length]. lia.
Qed.

(** * The cases of the test suite *)

Example count_words_extra_spaces :
  count_words (codes "hello   world  test") = 3%nat.
Proof. reflexivity. Qed.

Example clean_removes_unicode_chars :
  clean_loop (codes "hello" ++ [8232] ++ codes "world" ++ [8233]
              ++ codes "test" ++ [160] ++ codes "end")
  = (codes "helloworldtestend", 3%nat).
Proof. by vm_compute. Qed.

Example clean_preserves_tabs_and_newlines :
  clean_loop (codes "hello" ++ [9] ++ codes "world" ++ [10] ++ codes "test")
  = (codes "hello" ++ [9] ++ codes "world" ++ [10] ++ codes "test", 0%nat).
Proof. by vm_compute. Qed.

Example show_dirty_file :
  stdout (show_hidden_chars "dirty.txt" dirty_world).2
  = [Text ""; Text "Invisible characters found:";
     Text "  Find (ASCII 8203): 2 characters";
     Text " Total Invisible Characters: 2 characters";
     Text "  Original Length: 16";
     Text ("  Number of Words: 1" +:+ NL)].
Proof. by vm_compute. Qed.

Example clean_dirty_file :
  files (clean_text_file "dirty.txt" "clean.txt" dirty_world).2 !! "clean.txt"
  = Some (Regular (codes "helloworldtest")).
Proof. by vm_compute. Qed.

(** Equal counts keep the order of first occurrence. *)
Example sorted_desc_ties :
  sorted_desc (tally [8203; 8204; 8204; 8205])
  = [(8204, 2%nat); (8203, 1%nat); (8205, 1%nat)].
Proof. by vm_compute. Qed.

(** Text mode turns CR LF into LF before the loop sees the content. *)
Example clean_crlf_file :
  (clean_text_file "in.txt" "out.txt"
     (World {[ "in.txt" := Regular [97; 13; 10; 98] ]} ∅ [])).2.(files)
  !! "out.txt"
  = Some (Regular [97; 10; 98]).
Proof. by vm_compute. Qed.

(** Paths that name no file and yet are not the file-not-found case:
    through a regular file, and with a name too long.  Inspect lets the
    exception out; clean reports it by the general handler. *)
Example other_open_errors_not_this_case :
  show_hidden_chars "dirty.txt/x" dirty_world
  = (Raise (NotADirectoryError "dirty.txt/x"), dirty_world)
  ∧ stdout (clean_text_file "dirty.txt/x" "clean.txt" dirty_world).2
    = [ErrorText (NotADirectoryError "dirty.txt/x")]
  ∧ (show_hidden_chars long_name dirty_world).1 = Raise (OSError long_name)
  ∧ (show_hidden_chars "." dirty_world).1 = Raise (IsADirectoryError ".").
Proof. by vm_compute. Qed.

(** Another spelling of the input as output: the input file is
    overwritten. *)
Example clean_in_place_by_other_spelling :
  files (clean_text_file "dirty.txt" "./dirty.txt" dirty_world).2 !! "dirty.txt"
  = Some (Regular (codes "helloworldtest")).
Proof. by vm_compute. Qed.

(** Three hidden characters: the most frequent first, then the two that
    occur once, in the order in which they first occur. *)
Example show_mixed_file :
  stdout (show_hidden_chars "mixed.txt" mixed_world).2
  = [Text ""; Text "Invisible characters found:";
     Text "  Find (ASCII 8204): 3 characters";
     Text "  Find (ASCII 8205): 1 characters";
     Text "  Find (ASCII 8203): 1 characters";
     Text " Total Invisible Characters: 5 characters";
     Text "  Original Length: 8";
     Text ("  Number of Words: 1" +:+ NL)].
Proof. by vm_compute. Qed.

(** * The claims *)

(** C1: a code point is tagged Allowed exactly when its value lies in
    32..126 or is 9, 10 or 13, and Hidden otherwise (so everything from 127
    up is Hidden); the tag is a function of the code point alone, and both
    loops, of clean and of inspect, act on that tag. *)
Theorem classify_spec (c : character) :
  (classify c = Allowed ↔ 32 ≤ ord c ≤ 126 ∨ ord c = 9 ∨ ord c = 10 ∨ ord c = 13)
  ∧ (classify c = Hidden ↔
     ¬ (32 ≤ ord c ≤ 126 ∨ ord c = 9 ∨ ord c = 10 ∨ ord c = 13))
  ∧ (127 ≤ ord c → classify c = Hidden)
  ∧ (∀ cleaned n,
       clean_step (cleaned, n) c =
       match classify c with
       | Allowed => (cleaned ++ [c], n)
       | Hidden => (cleaned, (n + 1)%nat)
       end)
  ∧ (∀ d n,
       show_step (Ok (d, n)) c =
       match classify c with
       | Allowed => Ok (d, n)
       | Hidden => Ok (tally_add c d, S n)
       end).
Proof.
  split_and!.
  - rewrite classify_Allowed. apply is_allowed_true.
  - rewrite classify_Hidden. apply is_allowed_false.
  - intros Hc. apply classify_Hidden, is_allowed_false.
    unfold in_allowed_range. lia.
  - intros cleaned n. apply clean_step_classify.
  - intros d n. apply show_step_classify.
Qed.

(** C2: the clean loop returns the Allowed characters of its input, in
    their order and nothing else, together with the number of Hidden ones;
    that sequence is what a successful clean writes to the output file; and
    "hello", U+200B, "world", U+200C, "test" gives "helloworldtest" with 2
    characters removed. *)
Theorem clean_loop_filter :
  (∀ content,
     clean_loop content =
     (filter (λ c, classify c = Allowed) content,
      length (filter (λ c, classify c = Hidden) content)))
  ∧ (∀ content, (clean_loop content).1 `sublist_of` content)
  ∧ (∀ input_file output_file w data,
       files w !! input_file = Some (Regular data) →
       writable w output_file = true →
       files (clean_text_file input_file output_file w).2 !! output_file =
       Some (Regular (clean_loop (universal_newlines data)).1))
  ∧ clean_loop (codes "hello" ++ [8203] ++ codes "world" ++ [8204]
                ++ codes "test")
    = (codes "helloworldtest", 2%nat).
Proof.
  split_and!.
  - apply clean_loop_eq.
  - intros content. rewrite clean_loop_eq. apply sublist_filter.
  - intros input_file output_file w data Hin Hout.
    rewrite (clean_text_file_run _ _ _ _ Hin Hout), clean_loop_eq.
    apply lookup_insert_eq.
  - by vm_compute.
Qed.

(** C3: when clean reads its input and writes its output, the cleaned
    length and the hidden-removed count it prints add up to the original
    length it prints, the number of characters read. *)
Theorem clean_length_invariant input_file output_file w data :
  files w !! input_file = Some (Regular data) →
  writable w output_file = true →
  ∃ (content cleaned : list character) (hidden_removed : nat),
    content = universal_newlines data
    ∧ clean_loop content = (cleaned, hidden_removed)
    ∧ stdout (clean_text_file input_file output_file w).2 =
      stdout w ++
      [Text (NL +:+ "Original length: " +:+ pretty (length content)
             +:+ " characters");
       Text ("Number of Words: " +:+ pretty (count_words content));
       Text ("Cleaned Length: " +:+ pretty (length cleaned)
             +:+ " characters");
       Text ("Invisible characters removed: " +:+ pretty hidden_removed);
       Text ("Words count: " +:+ pretty (count_words cleaned));
       Text ("Clean version of file saved to: " +:+ output_file +:+ NL)]
    ∧ (length cleaned + hidden_removed)%nat = length content.
Proof.
  intros Hin Hout. eexists _, _, _. split; [done|].
  split; [apply clean_loop_eq|].
  split; [by rewrite (clean_text_file_run _ _ _ _ Hin Hout)|].
  apply length_filter_classify.
Qed.

Lemma clean_length_invariant_witness :
  ∃ (content cleaned : list character) (hidden_removed : nat),
    content = dirty_content
    ∧ clean_loop content = (cleaned, hidden_removed)
    ∧ stdout (clean_text_file "dirty.txt" "clean.txt" dirty_world).2 =
      [Text (NL +:+ "Original length: " +:+ pretty (length content)
             +:+ " characters");
       Text ("Number of Words: " +:+ pretty (count_words content));
       Text ("Cleaned Length: " +:+ pretty (length cleaned)
             +:+ " characters");
       Text ("Invisible characters removed: " +:+ pretty hidden_removed);
       Text ("Words count: " +:+ pretty (count_words cleaned));
       Text ("Clean version of file saved to: " +:+ "clean.txt" +:+ NL)]
    ∧ (length cleaned + hidden_removed)%nat = length content.
Proof.
  apply (clean_length_invariant "dirty.txt" "clean.txt" dirty_world
           dirty_content);
    vm_compute; reflexivity.
Defined.

(** C4: [clean_text_file] returns normally in every world, whatever [open]
    raises; [show_hidden_chars] handles [FileNotFoundError] alone, and the
    [PermissionError] of a file it may not read leaves it unhandled. *)
Theorem show_hidden_chars_permission_error :
  (∀ input_file output_file w,
     (clean_text_file input_file output_file w).1 = Ok ())
  ∧ show_hidden_chars "locked.txt" locked_world
    = (Raise (PermissionError "locked.txt"), locked_world).
Proof.
  split; [apply clean_text_file_returns|].
  by apply show_hidden_chars_protected.
Qed.

(** C5: when the input path does not exist, so that [open] raises
    [FileNotFoundError], clean and inspect both catch it and return
    normally, having printed one line that holds the path as given, and the
    files are what they were: clean has written nothing.  (A path that
    fails for another reason, through a file that is no directory or by a
    name too long, is not this condition: see
    [other_open_errors_not_this_case].) *)
Theorem file_not_found_handled input_file output_file w :
  path_status w input_file = NoEntry →
  let after :=
    World (files w) (no_dir w)
      (stdout w ++ [Text ("Error: File '" +:+ input_file +:+ "' not found!")])
  in
  read_text input_file w = (Raise (FileNotFoundError input_file), w)
  ∧ clean_text_file input_file output_file w = (Ok (), after)
  ∧ show_hidden_chars input_file w = (Ok (), after).
Proof.
  intros Hin after. split_and!.
  - by apply read_text_no_entry.
  - by apply clean_text_file_not_found.
  - by apply show_hidden_chars_not_found.
Qed.

Lemma file_not_found_handled_witness :
  read_text "nonexistent.txt" dirty_world
  = (Raise (FileNotFoundError "nonexistent.txt"), dirty_world)
  ∧ clean_text_file "nonexistent.txt" "clean.txt" dirty_world
    = (Ok (),
       World (files dirty_world) ∅
         [Text "Error: File 'nonexistent.txt' not found!"])
  ∧ show_hidden_chars "nonexistent.txt" dirty_world
    = (Ok (),
       World (files dirty_world) ∅
         [Text "Error: File 'nonexistent.txt' not found!"]).
Proof.
  apply (file_not_found_handled "nonexistent.txt" "clean.txt" dirty_world).
  vm_compute. reflexivity.
Defined.



(** C7: the inspect loop ends without an exception, and in the tally it
    returns every Hidden character of the content has one entry, nothing
    else has one, each entry holds the number of occurrences of its
    character, and the counts add up to the running total, which is the
    number of Hidden characters of the content. *)
Theorem tally_spec (content : list character) :
  ∃ (hidden_chars : dict) (total_hidden : nat),
    show_loop content = Ok (hidden_chars, total_hidden)
    ∧ NoDup hidden_chars.*1
    ∧ (∀ c, c ∈ hidden_chars.*1 ↔ c ∈ content ∧ classify c = Hidden)
    ∧ (∀ c n, (c, n) ∈ hidden_chars → n = occurrences c content)
    ∧ sum_list hidden_chars.*2 = total_hidden
    ∧ total_hidden = length (filter (λ c, classify c = Hidden) content).
Proof.
  destruct (tally_inv content) as (ks & Hd & Hnd & Hks & _).
  assert (Hkeys : (tally content).*1 = ks).
  { rewrite Hd, <- list_fmap_compose.
    by rewrite (list_fmap_ext _ id ks), list_fmap_id. }
  eexists _, _. split; [apply show_loop_eq|].
  rewrite Hkeys. split_and!; [done..| | |done].
  - intros c n. rewrite Hd, list_elem_of_fmap.
    intros (k & [= -> ->] & _). done.
  - unfold tally. by rewrite tally_sum_from.
Qed.

(** C8: when the content read holds a Hidden character, inspect prints,
    after an empty line and the heading, one line per distinct Hidden
    character of the content, giving its code point and the number of its
    occurrences, then the total, then the original length and the word
    count.  The lines are in the order of the counts, larger first; lines
    with the same count are in the order in which their characters first
    occur in the content. *)
Theorem show_listing_order input_file w data c :
  files w !! input_file = Some (Regular data) →
  c ∈ universal_newlines data →
  classify c = Hidden →
  let content := universal_newlines data in
  ∃ (hidden_chars listing : dict) (total_hidden : nat),
    show_loop content = Ok (hidden_chars, total_hidden)
    ∧ listing ≡ₚ hidden_chars
    ∧ NoDup listing.*1
    ∧ (∀ char count,
         (char, count) ∈ listing ↔
         char ∈ content ∧ classify char = Hidden
         ∧ count = occurrences char content)
    ∧ total_hidden = length (filter (λ c, classify c = Hidden) content)
    ∧ StronglySorted
        (listed_before
           (λ x y, (first_pos x.1 content < first_pos y.1 content)%nat))
        listing
    ∧ show_hidden_chars input_file w =
      (Ok (),
       World (files w) (no_dir w)
         (stdout w
          ++ [Text ""; Text "Invisible characters found:"]
          ++ ((λ item,
                 Text ("  Find (ASCII " +:+ pretty (ord item.1) +:+ "): "
                       +:+ pretty item.2 +:+ " characters"))
              <$> listing)
          ++ [Text (" Total Invisible Characters: " +:+ pretty total_hidden
                    +:+ " characters");
              Text ("  Original Length: " +:+ pretty (length content));
              Text ("  Number of Words: " +:+ pretty (count_words content)
                    +:+ NL)])).
Proof.
  intros Hin Hc Hhidden content. fold content in Hc.
  destruct (tally_inv content) as (ks & Hd & Hnd & Hks & Hsort).
  assert (Hkeys : (tally content).*1 = ks).
  { rewrite Hd, <- list_fmap_compose.
    by rewrite (list_fmap_ext _ id ks), list_fmap_id. }
  exists (tally content), (sorted_desc (tally content)).
  eexists.
  split; [apply show_loop_eq|].
  split; [apply sorted_desc_Permutation|].
  split_and!.
  - by rewrite sorted_desc_Permutation, Hkeys.
  - intros char count. rewrite sorted_desc_Permutation, Hd, list_elem_of_fmap.
    unfold with_count. split.
    + intros (k & [= -> ->] & [Hin' Hk]%Hks). done.
    + intros (Hin' & Hk & ->). exists char. split; [done|]. by apply Hks.
  - done.
  - apply sorted_desc_sorted. rewrite Hd.
    eapply StronglySorted_fmap; [|exact Hsort]. done.
  - rewrite (show_hidden_chars_run _ _ _ Hin). fold content.
    unfold show_report.
    destruct (tally content) as [|item d] eqn:Htally.
    + assert (Hk : c ∈ ks) by (apply Hks; done).
      symmetry in Hd. apply fmap_nil_inv in Hd. subst ks.
      by apply elem_of_nil in Hk.
    + assert (Hlines : ∀ items : dict,
        Text ∘ find_line <$> items =
        (λ item,
           Text ("  Find (ASCII " +:+ pretty (ord item.1) +:+ "): "
                 +:+ pretty item.2 +:+ " characters")) <$> items).
      { intros items. apply Forall_fmap_ext_1, Forall_forall.
        by intros [char count] _. }
      rewrite Hlines. cbn [app]. by rewrite <- !app_assoc.
Qed.

Lemma show_listing_order_witness :
  ∃ (hidden_chars listing : dict) (total_hidden : nat),
    show_loop mixed_content = Ok (hidden_chars, total_hidden)
    ∧ listing ≡ₚ hidden_chars
    ∧ NoDup listing.*1
    ∧ (∀ char count,
         (char, count) ∈ listing ↔
         char ∈ mixed_content ∧ classify char = Hidden
         ∧ count = occurrences char mixed_content)
    ∧ total_hidden
      = length (filter (λ c, classify c = Hidden) mixed_content)
    ∧ StronglySorted
        (listed_before
           (λ x y,
              (first_pos x.1 mixed_content < first_pos y.1 mixed_content)%nat))
        listing
    ∧ show_hidden_chars "mixed.txt" mixed_world =
      (Ok (),
       World (files mixed_world) ∅
         ([Text ""; Text "Invisible characters found:"]
          ++ ((λ item,
                 Text ("  Find (ASCII " +:+ pretty (ord item.1) +:+ "): "
                       +:+ pretty item.2 +:+ " characters"))
              <$> listing)
          ++ [Text (" Total Invisible Characters: " +:+ pretty total_hidden
                    +:+ " characters");
              Text ("  Original Length: " +:+ pretty (length mixed_content));
              Text ("  Number of Words: "
                    +:+ pretty (count_words mixed_content) +:+ NL)])).
Proof.
  apply (show_listing_order "mixed.txt" mixed_world mixed_content 8204).
  - vm_compute. reflexivity.
  - vm_compute. do 4 right. left.
  - vm_compute. reflexivity.
Defined.

(** C9: [count_words] counts the words [split] returns.  A whitespace
    character cuts the text in two, each side split on its own; a nonempty
    run without whitespace is one word; no word is empty.  So "" has 0
    words, "a" 1, "a   b" 2 and "a\nb\tc" 3, text of whitespace only has 0,
    and a second whitespace character next to a first changes nothing. *)
Theorem count_words_spec :
  count_words (codes "") = 0%nat
  ∧ count_words (codes "a") = 1%nat
  ∧ count_words (codes "a   b") = 2%nat
  ∧ count_words (codes "a" ++ [10] ++ codes "b" ++ [9] ++ codes "c") = 3%nat
  ∧ (∀ text, Forall (λ c, is_space c = true) text → count_words text = 0%nat)
  ∧ (∀ u s1 s2 v,
       is_space s1 = true → is_space s2 = true →
       count_words (u ++ s1 :: s2 :: v) = count_words (u ++ s1 :: v))
  ∧ (∀ u s v,
       is_space s = true → split (u ++ s :: v) = split u ++ split v)
  ∧ (∀ u, u ≠ [] → Forall (λ c, is_space c = false) u → split u = [u])
  ∧ (∀ text, [] ∉ split text)
  ∧ (∀ c, c ∈ [32; 9; 10; 13] → is_space c = true).
Proof.
  split_and!; try by vm_compute.
  - intros text Htext. unfold count_words. by rewrite split_spaces.
  - intros u s1 s2 v Hs1 Hs2.
    rewrite !(count_words_space u) by done. f_equal.
    apply (count_words_space [] s2 v Hs2).
  - intros u s v Hs. by apply split_from_space.
  - apply split_word.
  - intros text. apply split_from_nonempty.
  - intros c. rewrite !elem_of_cons, elem_of_nil.
    intros [->|[->|[->|[->|[]]]]]; by vm_compute.
Qed.

(** C10: whatever the content, every character the clean loop keeps has its
    code in 32..126 or equal to 9, 10 or 13, and running the loop on what it
    returned gives that back with 0 characters removed. *)
Theorem clean_loop_idempotent (content : list character) :
  Forall (λ c, 32 ≤ ord c ≤ 126 ∨ ord c = 9 ∨ ord c = 10 ∨ ord c = 13)
    (clean_loop content).1
  ∧ clean_loop (clean_loop content).1 = ((clean_loop content).1, 0%nat).
Proof.
  assert (Hall : Forall (λ c, classify c = Allowed) (clean_loop content).1).
  { rewrite clean_loop_eq. cbn [fst]. apply Forall_forall.
    intros c Hc. by apply list_elem_of_filter in Hc as [Hc _]. }
  split.
  - eapply Forall_impl; [exact Hall|].
    intros c Hc. by apply is_allowed_true, classify_Allowed.
  - rewrite (clean_loop_eq (clean_loop content).1).
    by destruct (filter_all_Allowed _ Hall) as [-> ->].
Qed.

(** * Further properties *)

(** ** [main] *)

Example main_clean_dirty :
  (main ["vcleaner.py"; "clean"; "dirty.txt"] dirty_world).1 = Ok 0
  ∧ files (main ["vcleaner.py"; "clean"; "dirty.txt"] dirty_world).2
    !! "cleaned_dirty.txt"
    = Some (Regular (codes "helloworldtest")).
Proof. by vm_compute. Qed.

(** X1: called with no argument after the program name, [main] prints
    the usage text, returns 1 and touches no file. *)
Theorem main_no_arguments (argv : list string) w :
  (length argv < 2)%nat →
  main argv w =
  (Ok 1, World (files w) (no_dir w) (stdout w ++ [Text HELP_TEXT])).
Proof.
  intros Hlen. destruct argv as [|prog [|command args]]; [done..|].
  cbn in Hlen. lia.
Qed.

Lemma main_no_arguments_witness :
  main ["vcleaner.py"] dirty_world =
  (Ok 1, World (files dirty_world) ∅ [Text HELP_TEXT]).
Proof.
  apply (main_no_arguments ["vcleaner.py"] dirty_world). cbn. lia.
Defined.

(** X2: a command other than "clean" and "show" makes [main] print the
    unknown-command line and return 1, whatever arguments follow; no file is
    touched. *)
Theorem main_unknown_command prog command args w :
  command ≠ "clean" → command ≠ "show" →
  main (prog :: command :: args) w =
  (Ok 1,
   World (files w) (no_dir w)
     (stdout w ++ [Text "Unknown command. Use 'clean' or 'show'"])).
Proof.
  intros Hclean Hshow. cbn [main].
  by rewrite !decide_False.
Qed.

Lemma main_unknown_command_witness :
  main ["vcleaner.py"; "unknown"; "dirty.txt"] dirty_world =
  (Ok 1,
   World (files dirty_world) ∅
     [Text "Unknown command. Use 'clean' or 'show'"]).
Proof.
  by apply (main_unknown_command "vcleaner.py" "unknown" ["dirty.txt"]
              dirty_world).
Defined.

(** X3: "clean" or "show" without an input file prints the
    specify-input-file line, touches no file, and still returns 0. *)
Theorem main_missing_input prog command w :
  command = "clean" ∨ command = "show" →
  main [prog; command] w =
  (Ok 0,
   World (files w) (no_dir w) (stdout w ++ [Text "Error: Specify input file"])).
Proof. by intros [-> | ->]. Qed.

Lemma main_missing_input_witness :
  main ["vcleaner.py"; "show"] dirty_world =
  (Ok 0, World (files dirty_world) ∅ [Text "Error: Specify input file"]).
Proof.
  apply (main_missing_input "vcleaner.py" "show" dirty_world). by right.
Defined.

Lemma clean_then_return input_file output_file w :
  (clean_text_file input_file output_file;; mret 0) w
  = (Ok 0, (clean_text_file input_file output_file w).2).
Proof.
  unfold mbind, M_bind.
  pose proof (clean_text_file_returns input_file output_file w) as Hok.
  destruct (clean_text_file input_file output_file w) as [[[]|e] w'];
    by simplify_eq/=.
Qed.

(** X4: "clean" with an input file does what [clean_text_file] does and
    returns 0 in every world, also when the input is missing or the output
    cannot be written.  Without an output argument the output path is
    "cleaned_" put in front of the input path as given; arguments after the
    output path are ignored. *)
Theorem main_clean prog input_file w :
  main [prog; "clean"; input_file] w
  = (Ok 0, (clean_text_file input_file ("cleaned_" +:+ input_file) w).2)
  ∧ ∀ output_file rest,
      main (prog :: "clean" :: input_file :: output_file :: rest) w
      = (Ok 0, (clean_text_file input_file output_file w).2).
Proof.
  split; [|intros output_file rest]; apply clean_then_return.
Qed.

Lemma show_hidden_chars_result input_file w :
  (show_hidden_chars input_file w).1 =
  match (read_text input_file w).1 with
  | Ok _ | Raise (FileNotFoundError _) => Ok ()
  | Raise e => Raise e
  end.
Proof.
  destruct (read_text_cases input_file w) as [[content Hin]|[e Hin]].
  - by rewrite (show_hidden_chars_read _ _ _ Hin), Hin.
  - unfold show_hidden_chars. unfold_io. rewrite Hin. by destruct e.
Qed.

Lemma main_result argv w :
  (main argv w).1 =
  match argv with
  | [] | [_] => Ok 1
  | _ :: command :: args =>
      if decide (command = "clean") then Ok 0
      else if decide (command = "show") then
        match args with
        | [] => Ok 0
        | input_file :: _ =>
            match (show_hidden_chars input_file w).1 with
            | Ok _ => Ok 0
            | Raise e => Raise e
            end
        end
      else Ok 1
  end.
Proof.
  destruct argv as [|prog [|command args]]; [done..|]. cbn [main].
  destruct (decide (command = "clean")) as [->|Hclean].
  - destruct args as [|input_file [|output_file rest]]; [done|..].
    + by rewrite clean_then_return.
    + by rewrite clean_then_return.
  - destruct (decide (command = "show")) as [->|Hshow]; [|done].
    destruct args as [|input_file rest]; [done|].
    unfold mbind, M_bind.
    by destruct (show_hidden_chars input_file w) as [[[]|e] w'].
Qed.

(** X5: [main] returns 0 or 1 or lets one exception through.  It returns 1
    exactly when there is no command or the command is neither "clean" nor
    "show".  It raises exactly when the command is "show" and opening the
    input file raises something other than [FileNotFoundError] (a file that
    may not be read, a directory, a path through a regular file, a name too
    long, a null byte); what it raises is that exception. *)
Theorem main_outcome (argv : list string) w :
  ((main argv w).1 = Ok 1 ↔
     (length argv < 2)%nat
     ∨ ∃ command,
         argv !! 1%nat = Some command
         ∧ command ≠ "clean" ∧ command ≠ "show")
  ∧ (∀ e, (main argv w).1 = Raise e ↔
       ∃ input_file,
         argv !! 1%nat = Some "show"
         ∧ argv !! 2%nat = Some input_file
         ∧ (read_text input_file w).1 = Raise e
         ∧ ∀ filename, e ≠ FileNotFoundError filename)
  ∧ ((main argv w).1 = Ok 0 ∨ (main argv w).1 = Ok 1
     ∨ ∃ e, (main argv w).1 = Raise e).
Proof.
  rewrite main_result.
  destruct argv as [|prog [|command args]].
  - split_and!; [cbn; intuition lia| |by right; left].
    intros e. split; [done|]. by intros (? & [=] & _).
  - split_and!; [cbn; intuition lia| |by right; left].
    intros e. split; [done|]. by intros (? & [=] & _).
  - cbn [lookup list_lookup length].
    destruct (decide (command = "clean")) as [->|Hclean].
    { split_and!; [| |by left].
      - split; [done|]. intros [?|(? & [= <-] & ? & _)]; [lia|done].
      - intros e. split; [done|]. by intros (? & [=] & _). }
    destruct (decide (command = "show")) as [->|Hshow].
    2:{ split_and!; [| |by right; left].
        - split; [|done]. intros _. right. by exists command.
        - intros e. split; [done|]. intros (? & [= ->] & _). done. }
    destruct args as [|input_file rest].
    { split_and!; [| |by left].
      - split; [done|]. intros [?|(? & [= <-] & _ & ?)]; [lia|done].
      - intros e. split; [done|]. by intros (? & _ & [=] & _). }
    cbn [lookup list_lookup].
    rewrite show_hidden_chars_result.
    destruct (read_text input_file w).1 as [content|e'] eqn:Hread.
    { split_and!; [| |by left].
      - split; [done|]. intros [?|(? & [= <-] & _ & ?)]; [lia|done].
      - intros e. split; [done|].
        intros (? & _ & [= <-] & ? & _). congruence. }
    assert (Hfnf : ∀ filename, e' = FileNotFoundError filename →
      ∀ e, ¬ ∃ input_file' : string,
        Some "show" = Some "show"
        ∧ Some input_file = Some input_file'
        ∧ (read_text input_file' w).1 = Raise e
        ∧ ∀ filename, e ≠ FileNotFoundError filename).
    { intros filename -> e (? & _ & [= <-] & He & Hne).
      rewrite Hread in He. injection He as <-. by eapply Hne. }
    destruct e'.
    1:{ split_and!; [| |by left].
        - split; [done|]. intros [?|(? & [= <-] & _ & ?)]; [lia|done].
        - intros e. split; [done|]. intros H. by eapply Hfnf in H. }
    all: split_and!; [| |right; right; by eexists].
    all: try (split; [done|];
              intros [?|(? & [= <-] & _ & ?)]; [lia|done]).
    all: intros e; split;
      [ intros [= <-]; exists input_file; split_and!; done
      | intros (? & _ & [= <-] & He & _); rewrite Hread in He; congruence ].
Qed.

(** The exceptions of [open] that "show" lets through [main]. *)
Example main_show_unhandled :
  (main ["vcleaner.py"; "show"; "dirty.txt/x"] dirty_world).1
  = Raise (NotADirectoryError "dirty.txt/x")
  ∧ (main ["vcleaner.py"; "show"; "."] dirty_world).1
    = Raise (IsADirectoryError ".")
  ∧ (main ["vcleaner.py"; "show"; long_name] dirty_world).1
    = Raise (OSError long_name)
  ∧ (main ["vcleaner.py"; "show"; "locked.txt"] locked_world).1
    = Raise (PermissionError "locked.txt")
  ∧ (main ["vcleaner.py"; "show"; "nonexistent.txt"] dirty_world).1 = Ok 0.
Proof. by vm_compute. Qed.

(** ** What the operations leave alone *)

(** X6: [show_hidden_chars] never changes a file, whether it reports,
    prints the not-found line or raises; what was printed before stays in
    front of what it prints. *)
Theorem show_hidden_chars_read_only input_file w :
  files (show_hidden_chars input_file w).2 = files w
  ∧ no_dir (show_hidden_chars input_file w).2 = no_dir w
  ∧ stdout w `prefix_of` stdout (show_hidden_chars input_file w).2.
Proof.
  destruct (read_text_cases input_file w) as [[content Hin]|[e Hin]].
  - rewrite (show_hidden_chars_read _ _ _ Hin). cbn.
    split_and!; [done..|]. by eexists.
  - unfold show_hidden_chars. unfold_io. rewrite Hin.
    destruct e; cbn; (split_and!; [done..|]);
      first [by eexists | exists []; by rewrite app_nil_r].
Qed.

Lemma write_text_error path text w e :
  write_error w path = Some e → write_text path text w = (Raise e, w).
Proof. intros He. unfold write_text. by rewrite He. Qed.

Lemma clean_text_file_unreadable input_file output_file w e :
  read_text input_file w = (Raise e, w) →
  files (clean_text_file input_file output_file w).2 = files w
  ∧ no_dir (clean_text_file input_file output_file w).2 = no_dir w.
Proof.
  intros Hin. unfold clean_text_file. unfold_io. rewrite Hin.
  by destruct e.
Qed.

Lemma clean_text_file_unwritable input_file output_file w content :
  read_text input_file w = (Ok content, w) →
  writable w output_file = false →
  files (clean_text_file input_file output_file w).2 = files w
  ∧ no_dir (clean_text_file input_file output_file w).2 = no_dir w.
Proof.
  intros Hin Hout. unfold clean_text_file. unfold_io. rewrite Hin.
  destruct (clean_loop content) as [cleaned hidden].
  cbn [print files no_dir stdout].
  match goal with
  | |- context [write_text _ _ ?w'] =>
      destruct (write_text_unwritable output_file cleaned w' Hout)
        as (e & _ & ->)
  end.
  by destruct e.
Qed.

(** X7: when [clean_text_file] cannot do its work, because the input
    cannot be opened and read or because the output cannot be opened for
    writing, it changes no file at all. *)
Theorem clean_text_file_failure_changes_nothing input_file output_file w :
  (∃ e, (read_text input_file w).1 = Raise e)
  ∨ writable w output_file = false →
  files (clean_text_file input_file output_file w).2 = files w
  ∧ no_dir (clean_text_file input_file output_file w).2 = no_dir w.
Proof.
  intros Hfail.
  destruct (read_text_cases input_file w) as [[content Hin]|[e Hin]].
  - destruct Hfail as [[e He]|Hout].
    + by rewrite Hin in He.
    + by eapply clean_text_file_unwritable.
  - by eapply clean_text_file_unreadable.
Qed.

Lemma clean_text_file_failure_changes_nothing_witness :
  files (clean_text_file "dirty.txt" "out.txt" protected_out_world).2
  = files protected_out_world
  ∧ no_dir (clean_text_file "dirty.txt" "out.txt" protected_out_world).2
    = no_dir protected_out_world.
Proof.
  apply (clean_text_file_failure_changes_nothing "dirty.txt" "out.txt"
           protected_out_world).
  right. by vm_compute.
Defined.

(** X8: when the input is read and the output file may not be written,
    [clean_text_file] has already printed the original length and word
    count; it then prints the error line of the [PermissionError], changes
    no file, prints none of the cleaned figures, and returns normally. *)
Theorem clean_text_file_protected_output input_file output_file w data :
  files w !! input_file = Some (Regular data) →
  files w !! output_file = Some Protected →
  let content := universal_newlines data in
  clean_text_file input_file output_file w =
  (Ok (),
   World (files w) (no_dir w)
     (stdout w ++
      [Text (NL +:+ "Original length: " +:+ pretty (length content)
             +:+ " characters");
       Text ("Number of Words: " +:+ pretty (count_words content));
       ErrorText (PermissionError output_file)])).
Proof.
  intros Hin Hout content. unfold clean_text_file. unfold_io.
  rewrite (read_text_regular _ _ _ Hin). fold content.
  destruct (clean_loop content) as [cleaned hidden].
  cbn [print files no_dir stdout].
  erewrite write_text_error by (by apply write_error_protected).
  unfold print_error. cbn [files no_dir stdout].
  by rewrite <- !app_assoc.
Qed.

Lemma clean_text_file_protected_output_witness :
  clean_text_file "dirty.txt" "out.txt" protected_out_world =
  (Ok (),
   World (files protected_out_world) ∅
     [Text (NL +:+ "Original length: " +:+ pretty (length dirty_content)
            +:+ " characters");
      Text ("Number of Words: " +:+ pretty (count_words dirty_content));
      ErrorText (PermissionError "out.txt")]).
Proof.
  apply (clean_text_file_protected_output "dirty.txt" "out.txt"
           protected_out_world dirty_content); by vm_compute.
Defined.

(** X9: when the input is read but the directory of the output path does
    not exist, the [FileNotFoundError] of the output is reported by the
    handler as the input file not being found: the line names the input
    path, which exists.  No file is changed. *)
Theorem clean_text_file_missing_output_dir input_file output_file w data :
  files w !! input_file = Some (Regular data) →
  files w !! output_file = None →
  output_file ∈ no_dir w →
  let content := universal_newlines data in
  clean_text_file input_file output_file w =
  (Ok (),
   World (files w) (no_dir w)
     (stdout w ++
      [Text (NL +:+ "Original length: " +:+ pretty (length content)
             +:+ " characters");
       Text ("Number of Words: " +:+ pretty (count_words content));
       Text ("Error: File '" +:+ input_file +:+ "' not found!")])).
Proof.
  intros Hin Hout Hdir content. unfold clean_text_file. unfold_io.
  rewrite (read_text_regular _ _ _ Hin). fold content.
  destruct (clean_loop content) as [cleaned hidden].
  cbn [print files no_dir stdout].
  erewrite write_text_error by (by apply write_error_no_dir).
  unfold print. cbn [files no_dir stdout].
  by rewrite <- !app_assoc.
Qed.

Lemma clean_text_file_missing_output_dir_witness :
  clean_text_file "dirty.txt" "nodir/out.txt" missing_dir_world =
  (Ok (),
   World (files missing_dir_world) (no_dir missing_dir_world)
     [Text (NL +:+ "Original length: " +:+ pretty (length dirty_content)
            +:+ " characters");
      Text ("Number of Words: " +:+ pretty (count_words dirty_content));
      Text "Error: File 'dirty.txt' not found!"]).
Proof.
  apply (clean_text_file_missing_output_dir "dirty.txt" "nodir/out.txt"
           missing_dir_world dirty_content).
  - by vm_compute.
  - by vm_compute.
  - cbn. by apply elem_of_singleton.
Defined.

(** ** One operation after another *)

Lemma universal_newlines_no_cr_aux data :
  (13 ∉ universal_newlines data)
  ∧ (∀ c, 13 ∉ universal_newlines (c :: data)).
Proof.
  induction data as [|d data [IH1 IH2]].
  - split; [apply not_elem_of_nil|]. intros c. cbn.
    destruct (c =? 13) eqn:Hc; rewrite not_elem_of_cons;
      (split; [|apply not_elem_of_nil]); [done|].
    apply Z.eqb_neq in Hc. congruence.
  - split; [apply IH2|]. intros c. cbn [universal_newlines].
    destruct (c =? 13) eqn:Hc.
    + destruct (d =? 10); rewrite not_elem_of_cons; (split; [done|]);
        [apply IH1|apply IH2].
    + rewrite not_elem_of_cons. apply Z.eqb_neq in Hc.
      split; [congruence|apply IH2].
Qed.

Lemma universal_newlines_no_cr data : 13 ∉ universal_newlines data.
Proof. apply universal_newlines_no_cr_aux. Qed.

Lemma universal_newlines_id (text : list character) :
  13 ∉ text → universal_newlines text = text.
Proof.
  induction text as [|c text IH]; [done|].
  rewrite not_elem_of_cons. intros [Hc Htext]. cbn [universal_newlines].
  destruct (c =? 13) eqn:Hc13.
  - apply Z.eqb_eq in Hc13. congruence.
  - by rewrite IH.
Qed.

Lemma universal_newlines_length_aux data :
  (length (universal_newlines data) ≤ length data)%nat
  ∧ (∀ c, (length (universal_newlines (c :: data)) ≤ S (length data))%nat).
Proof.
  induction data as [|d data [IH1 IH2]].
  - split; [done|]. intros c. cbn. by destruct (c =? 13).
  - split; [apply IH2|]. intros c. cbn [universal_newlines].
    destruct (c =? 13); [destruct (d =? 10)|]; cbn [length].
    + lia.
    + specialize (IH2 d). cbn [universal_newlines] in IH2. lia.
    + specialize (IH2 d). cbn [universal_newlines] in IH2. lia.
Qed.

(** What a successful clean leaves in the output file: Allowed characters
    only, no carriage return, and text mode reads it back as it is. *)
Lemma cleaned_facts data :
  let cleaned := (clean_loop (universal_newlines data)).1 in
  Forall (λ c, classify c = Allowed) cleaned
  ∧ (13 ∉ cleaned)
  ∧ universal_newlines cleaned = cleaned
  ∧ (length cleaned ≤ length data)%nat.
Proof.
  intros cleaned. unfold cleaned. rewrite clean_loop_eq. cbn [fst].
  assert (Hcr : 13 ∉ filter (λ c, classify c = Allowed) (universal_newlines data)).
  { rewrite list_elem_of_filter. intros [_ Hin].
    by apply universal_newlines_no_cr in Hin. }
  split_and!; [|done|by apply universal_newlines_id|].
  - apply Forall_forall. intros c Hc.
    by apply list_elem_of_filter in Hc as [Hc _].
  - etrans; [apply length_filter|].
    apply universal_newlines_length_aux.
Qed.

Lemma tally_all_Allowed (content : list character) :
  Forall (λ c, classify c = Allowed) content → tally content = [].
Proof.
  intros Hall. destruct (tally_inv content) as (ks & -> & _ & Hks & _).
  destruct ks as [|k ks]; [done|].
  destruct (proj1 (Hks k)) as [Hin Hk]; [left|].
  rewrite Forall_forall in Hall. specialize (Hall k Hin). congruence.
Qed.

Lemma clean_text_file_files input_file output_file w data :
  files w !! input_file = Some (Regular data) →
  writable w output_file = true →
  let w1 := (clean_text_file input_file output_file w).2 in
  files w1
  = store output_file (clean_loop (universal_newlines data)).1 (files w)
  ∧ no_dir w1 = no_dir w.
Proof.
  intros Hin Hout. cbv zeta.
  by rewrite (clean_text_file_run _ _ _ _ Hin Hout), clean_loop_eq.
Qed.

(** X10: cleaning the output of a clean changes nothing: the second
    output file holds what the first holds, and the second report counts
    0 removed characters and the same length before and after. *)
Theorem clean_twice input_file output_file output_file' w data :
  files w !! input_file = Some (Regular data) →
  writable w output_file = true →
  let w1 := (clean_text_file input_file output_file w).2 in
  writable w1 output_file' = true →
  let w2 := (clean_text_file output_file output_file' w1).2 in
  ∃ cleaned : list character,
    files w1 !! output_file = Some (Regular cleaned)
    ∧ files w2 !! output_file' = Some (Regular cleaned)
    ∧ stdout w2 =
      stdout w1 ++
      [Text (NL +:+ "Original length: " +:+ pretty (length cleaned)
             +:+ " characters");
       Text ("Number of Words: " +:+ pretty (count_words cleaned));
       Text ("Cleaned Length: " +:+ pretty (length cleaned)
             +:+ " characters");
       Text ("Invisible characters removed: " +:+ pretty 0%nat);
       Text ("Words count: " +:+ pretty (count_words cleaned));
       Text ("Clean version of file saved to: " +:+ output_file' +:+ NL)].
Proof.
  intros Hin Hout w1 Hout' w2.
  destruct (clean_text_file_files _ _ _ _ Hin Hout) as [Hfiles _].
  fold w1 in Hfiles.
  destruct (cleaned_facts data) as (Hall & _ & Hnl & _).
  set (cleaned := (clean_loop (universal_newlines data)).1) in *.
  assert (Hin1 : files w1 !! output_file = Some (Regular cleaned)).
  { rewrite Hfiles. apply lookup_insert_eq. }
  exists cleaned. split; [done|]. unfold w2.
  rewrite (clean_text_file_run _ _ _ _ Hin1 Hout'). cbn [snd files stdout].
  rewrite Hnl. destruct (filter_all_Allowed cleaned Hall) as [-> ->].
  split; [apply lookup_insert_eq|done].
Qed.

Lemma clean_twice_witness :
  ∃ cleaned : list character,
    files (clean_text_file "dirty.txt" "clean.txt" dirty_world).2 !! "clean.txt"
    = Some (Regular cleaned)
    ∧ files (clean_text_file "clean.txt" "again.txt"
               (clean_text_file "dirty.txt" "clean.txt" dirty_world).2).2
      !! "again.txt"
      = Some (Regular cleaned)
    ∧ stdout (clean_text_file "clean.txt" "again.txt"
                (clean_text_file "dirty.txt" "clean.txt" dirty_world).2).2 =
      stdout (clean_text_file "dirty.txt" "clean.txt" dirty_world).2 ++
      [Text (NL +:+ "Original length: " +:+ pretty (length cleaned)
             +:+ " characters");
       Text ("Number of Words: " +:+ pretty (count_words cleaned));
       Text ("Cleaned Length: " +:+ pretty (length cleaned)
             +:+ " characters");
       Text ("Invisible characters removed: " +:+ pretty 0%nat);
       Text ("Words count: " +:+ pretty (count_words cleaned));
       Text ("Clean version of file saved to: " +:+ "again.txt" +:+ NL)].
Proof.
  apply (clean_twice "dirty.txt" "clean.txt" "again.txt" dirty_world
           dirty_content); by vm_compute.
Defined.

(** X11: inspecting the output of a successful clean finds nothing: it
    prints the no-hidden-characters line and no listing. *)
Theorem show_after_clean input_file output_file w data :
  files w !! input_file = Some (Regular data) →
  writable w output_file = true →
  let w1 := (clean_text_file input_file output_file w).2 in
  ∃ cleaned : list character,
    files w1 !! output_file = Some (Regular cleaned)
    ∧ show_hidden_chars output_file w1 =
      (Ok (),
       World (files w1) (no_dir w1)
         (stdout w1 ++
          [Text "";
           Text "No hidden characters found! Your file is clean";
           Text ("  Original Length: " +:+ pretty (length cleaned));
           Text ("  Number of Words: " +:+ pretty (count_words cleaned)
                 +:+ NL)])).
Proof.
  intros Hin Hout w1.
  destruct (clean_text_file_files _ _ _ _ Hin Hout) as [Hfiles _].
  fold w1 in Hfiles.
  destruct (cleaned_facts data) as (Hall & _ & Hnl & _).
  set (cleaned := (clean_loop (universal_newlines data)).1) in *.
  assert (Hin1 : files w1 !! output_file = Some (Regular cleaned)).
  { rewrite Hfiles. apply lookup_insert_eq. }
  exists cleaned. split; [done|].
  rewrite (show_hidden_chars_run _ _ _ Hin1), Hnl.
  unfold show_report. by rewrite (tally_all_Allowed cleaned Hall).
Qed.

Lemma show_after_clean_witness :
  ∃ cleaned : list character,
    files (clean_text_file "dirty.txt" "clean.txt" dirty_world).2 !! "clean.txt"
    = Some (Regular cleaned)
    ∧ show_hidden_chars "clean.txt"
        (clean_text_file "dirty.txt" "clean.txt" dirty_world).2 =
      (Ok (),
       World (files (clean_text_file "dirty.txt" "clean.txt" dirty_world).2)
         (no_dir (clean_text_file "dirty.txt" "clean.txt" dirty_world).2)
         (stdout (clean_text_file "dirty.txt" "clean.txt" dirty_world).2 ++
          [Text "";
           Text "No hidden characters found! Your file is clean";
           Text ("  Original Length: " +:+ pretty (length cleaned));
           Text ("  Number of Words: " +:+ pretty (count_words cleaned)
                 +:+ NL)])).
Proof.
  apply (show_after_clean "dirty.txt" "clean.txt" dirty_world dirty_content);
    by vm_compute.
Defined.

Lemma universal_newlines_cons c rest :
  universal_newlines (c :: rest) =
  if c =? 13 then
    match rest with
    | d :: rest' =>
        if d =? 10 then 10 :: universal_newlines rest'
        else 10 :: universal_newlines rest
    | [] => [10]
    end
  else c :: universal_newlines rest.
Proof. done. Qed.

Lemma universal_newlines_others_aux data :
  filter (λ c, c ≠ 13 ∧ c ≠ 10) (universal_newlines data)
  = filter (λ c, c ≠ 13 ∧ c ≠ 10) data
  ∧ (∀ c, filter (λ c, c ≠ 13 ∧ c ≠ 10) (universal_newlines (c :: data))
          = filter (λ c, c ≠ 13 ∧ c ≠ 10) (c :: data)).
Proof.
  induction data as [|d data [IH1 IH2]].
  - split; [done|]. intros c. rewrite universal_newlines_cons.
    destruct (c =? 13) eqn:Hc; [|done].
    apply Z.eqb_eq in Hc as ->.
    by rewrite !filter_cons_False by (intros [? ?]; done).
  - split; [apply IH2|]. intros c.
    rewrite (universal_newlines_cons c (d :: data)).
    destruct (c =? 13) eqn:Hc.
    + apply Z.eqb_eq in Hc as ->.
      rewrite (filter_cons_False _ 13 (d :: data)) by (intros [? ?]; done).
      destruct (d =? 10) eqn:Hd.
      * apply Z.eqb_eq in Hd as ->.
        rewrite !filter_cons_False by (intros [? ?]; done). apply IH1.
      * rewrite filter_cons_False by (intros [? ?]; done). apply IH2.
    + destruct (decide (c ≠ 13 ∧ c ≠ 10)).
      * rewrite !(filter_cons_True _ c) by done. by rewrite IH2.
      * rewrite !(filter_cons_False _ c) by done. by rewrite IH2.
Qed.

(** X12: the content both operations read from a file holds no carriage
    return: text mode hands over the characters other than CR and LF
    unchanged and in order, never more characters than the file holds, and
    a file without CR as it is.  So the text [clean_text_file] gives to
    [f.write] holds no CR either, although the test of the loop lets 13
    through. *)
Theorem content_read_has_no_cr input_file w data :
  files w !! input_file = Some (Regular data) →
  ∃ content : list character,
    read_text input_file w = (Ok content, w)
    ∧ (13 ∉ content)
    ∧ (13 ∉ (clean_loop content).1)
    ∧ (length content ≤ length data)%nat
    ∧ filter (λ c, c ≠ 13 ∧ c ≠ 10) content
      = filter (λ c, c ≠ 13 ∧ c ≠ 10) data
    ∧ (13 ∉ data → content = data).
Proof.
  intros Hin. exists (universal_newlines data).
  destruct (cleaned_facts data) as (_ & Hcr & _ & _).
  split_and!.
  - by apply read_text_regular.
  - apply universal_newlines_no_cr.
  - done.
  - apply universal_newlines_length_aux.
  - apply universal_newlines_others_aux.
  - apply universal_newlines_id.
Qed.

Lemma content_read_has_no_cr_witness :
  ∃ content : list character,
    read_text "crlf.txt" crlf_world = (Ok content, crlf_world)
    ∧ (13 ∉ content)
    ∧ (13 ∉ (clean_loop content).1)
    ∧ (length content ≤ 5)%nat
    ∧ filter (λ c, c ≠ 13 ∧ c ≠ 10) content = codes "ab"
    ∧ (13 ∉ codes "a" ++ [13; 10] ++ codes "b" ++ [13] →
       content = codes "a" ++ [13; 10] ++ codes "b" ++ [13]).
Proof.
  apply (content_read_has_no_cr "crlf.txt" crlf_world
           (codes "a" ++ [13; 10] ++ codes "b" ++ [13])).
  by vm_compute.
Defined.

(** ** Words *)

Lemma split_from_length word text :
  length (split_from word text) =
  match word with
  | [] => word_starts false text
  | _ => S (word_starts true text)
  end.
Proof.
  revert word. induction text as [|c text IH]; intros word.
  - by destruct word.
  - cbn [split_from word_starts]. destruct (is_space c).
    + destruct word; cbn [length]; by rewrite IH.
    + rewrite IH. by destruct word.
Qed.

Lemma count_words_word_starts text : count_words text = word_starts false text.
Proof. unfold count_words, split. by rewrite split_from_length. Qed.

Lemma word_starts_inside text :
  (word_starts true text ≤ word_starts false text
   ∧ word_starts false text ≤ S (word_starts true text))%nat.
Proof.
  induction text as [|c text IH]; cbn [word_starts]; [lia|].
  destruct (is_space c); lia.
Qed.

Lemma word_starts_sublist (l1 l2 : list character) :
  l1 `sublist_of` l2 →
  ∀ inside, (word_starts inside l1 ≤ word_starts inside l2)%nat.
Proof.
  induction 1 as [|c l1 l2 Hl IH|c l1 l2 Hl IH]; intros inside.
  - done.
  - cbn [word_starts]. destruct (is_space c); [apply IH|].
    specialize (IH true). lia.
  - cbn [word_starts].
    pose proof (word_starts_inside l1) as [Hle1 Hle2].
    destruct (is_space c).
    + specialize (IH false). destruct inside; lia.
    + specialize (IH true). destruct inside; lia.
Qed.

(** X13: removing characters from a text never adds a word; so the word
    count [clean_text_file] prints for the cleaned text is at most the one
    it prints for the original. *)
Theorem cleaned_words_le :
  (∀ l1 l2 : list character,
     l1 `sublist_of` l2 → (count_words l1 ≤ count_words l2)%nat)
  ∧ (∀ content,
       (count_words (clean_loop content).1 ≤ count_words content)%nat).
Proof.
  assert (Hsub : ∀ l1 l2 : list character,
    l1 `sublist_of` l2 → (count_words l1 ≤ count_words l2)%nat).
  { intros l1 l2 Hl. rewrite !count_words_word_starts.
    by apply word_starts_sublist. }
  split; [done|]. intros content. apply Hsub.
  rewrite clean_loop_eq. apply sublist_filter.
Qed.

Lemma split_from_concat word text :
  concat (split_from word text) =
  rev word ++ filter (λ c, is_space c = false) text.
Proof.
  revert word. induction text as [|c text IH]; intros word.
  - cbn. destruct word; [done|]. cbn [concat]. by rewrite !app_nil_r.
  - cbn [split_from]. rewrite filter_cons.
    destruct (is_space c) eqn:Hc.
    + rewrite decide_False by done.
      destruct word; cbn [concat]; by rewrite IH.
    + rewrite decide_True by done. rewrite IH. cbn [rev].
      by rewrite <- app_assoc.
Qed.

Lemma split_from_no_space word text :
  Forall (λ c, is_space c = false) word →
  Forall (Forall (λ c, is_space c = false)) (split_from word text).
Proof.
  assert (Hrev : ∀ w : list character,
    Forall (λ c, is_space c = false) w →
    Forall (λ c, is_space c = false) (rev w)).
  { intros w. rewrite !Forall_forall. intros Hw c Hc. apply Hw.
    apply list_elem_of_In. apply in_rev. by apply list_elem_of_In. }
  revert word. induction text as [|c text IH]; intros word Hword.
  - cbn. destruct word; repeat constructor. by apply Hrev.
  - cbn [split_from]. destruct (is_space c) eqn:Hc.
    + destruct word; [by apply IH|].
      constructor; [by apply Hrev|by apply IH].
    + apply IH. by constructor.
Qed.

(** X14: [split] loses and adds nothing but whitespace: the words put end
    to end are the text without its whitespace characters, and no word holds
    a whitespace character. *)
Theorem split_keeps_characters (text : list character) :
  concat (split text) = filter (λ c, is_space c = false) text
  ∧ Forall (Forall (λ c, is_space c = false)) (split text).
Proof.
  split.
  - unfold split. by rewrite split_from_concat.
  - apply split_from_no_space. constructor.
Qed.

Lemma word_starts_bound text :
  (2 * word_starts true text ≤ length text
   ∧ 2 * word_starts false text ≤ S (length text))%nat.
Proof.
  induction text as [|c text IH]; cbn [word_starts length]; [lia|].
  destruct (is_space c); lia.
Qed.

(** X15: a text of n characters has at most (n + 1) / 2 words. *)
Theorem count_words_bound (text : list character) :
  (2 * count_words text ≤ length text + 1)%nat.
Proof.
  rewrite count_words_word_starts.
  pose proof (word_starts_bound text). lia.
Qed.

(** ** The tally and the two counts *)

Lemma occurrences_pos c (content : list character) :
  c ∈ content → (1 ≤ occurrences c content)%nat.
Proof.
  unfold occurrences. induction content as [|x content IH].
  - by rewrite elem_of_nil.
  - rewrite elem_of_cons, filter_cons. intros [->|Hc].
    + rewrite decide_True by done. cbn. lia.
    + destruct (decide (x = c)); cbn; [lia|by apply IH].
Qed.

Lemma occurrences_le_hidden c (content : list character) :
  classify c = Hidden →
  (occurrences c content
   ≤ length (filter (λ c, classify c = Hidden) content))%nat.
Proof.
  intros Hc. unfold occurrences.
  induction content as [|x content IH]; [done|].
  rewrite !filter_cons. destruct (decide (x = c)) as [->|Hx].
  - rewrite decide_True by done. cbn. lia.
  - destruct (decide (classify x = Hidden)); cbn; lia.
Qed.

Lemma length_le_sum_list (l : list nat) :
  Forall (λ n, 1 ≤ n)%nat l → (length l ≤ sum_list l)%nat.
Proof. induction 1 as [|n l Hn _ IH]; cbn; [done|lia]. Qed.

(** X16: whatever [show_hidden_chars] tallies, no entry has count 0, no
    count exceeds the total, and there are at most as many entries as the
    total. *)
Theorem tally_counts_positive content hidden_chars total_hidden :
  show_loop content = Ok (hidden_chars, total_hidden) →
  (∀ c n, (c, n) ∈ hidden_chars → (1 ≤ n ≤ total_hidden)%nat)
  ∧ (length hidden_chars ≤ total_hidden)%nat.
Proof.
  rewrite show_loop_eq. intros [= <- <-].
  destruct (tally_inv content) as (ks & Hd & _ & Hks & _).
  assert (Hentry : ∀ c n, (c, n) ∈ tally content →
    (1 ≤ n ≤ length (filter (λ c, classify c = Hidden) content))%nat).
  { intros c n. rewrite Hd, list_elem_of_fmap.
    intros (k & [= -> ->] & [Hin Hk]%Hks). split.
    - by apply occurrences_pos.
    - by apply occurrences_le_hidden. }
  split; [done|].
  pose proof (tally_sum_from [] content) as Hsum. cbn in Hsum.
  fold (tally content) in Hsum. rewrite <- Hsum, <- (length_fmap snd).
  apply length_le_sum_list, Forall_forall. intros n Hn.
  apply list_elem_of_fmap in Hn as ([c n'] & -> & Hin).
  by apply Hentry in Hin as [? _].
Qed.

Lemma tally_counts_positive_witness :
  (∀ c n, (c, n) ∈ dirty_tally → (1 ≤ n ≤ 2)%nat)
  ∧ (length dirty_tally ≤ 2)%nat.
Proof.
  apply (tally_counts_positive dirty_content dirty_tally 2%nat).
  by vm_compute.
Defined.

(** X17: on the same content the two operations agree on the number of
    hidden characters: the total inspect counts is the count clean
    removes. *)
Theorem show_total_is_clean_removed (content : list character) :
  ∃ hidden_chars : dict,
    show_loop content = Ok (hidden_chars, (clean_loop content).2).
Proof.
  exists (tally content). by rewrite show_loop_eq, clean_loop_eq.
Qed.

Lemma is_space_true c :
  is_space c = true ↔
  9 ≤ c ≤ 13 ∨ 28 ≤ c ≤ 32 ∨ 8192 ≤ c ≤ 8202
  ∨ c ∈ [133; 160; 5760; 8232; 8233; 8239; 8287; 12288].
Proof.
  unfold is_space.
  rewrite !orb_true_iff, !andb_true_iff, !Z.leb_le, bool_decide_eq_true.
  tauto.
Qed.

(** X18: the whitespace that separates words and also survives the clean
    loop is tab, line feed, carriage return and space; every other
    character that [count_words] treats as a separator is removed as
    hidden. *)
Theorem surviving_whitespace (c : character) :
  is_space c = true ∧ classify c = Allowed ↔ c ∈ [9; 10; 13; 32].
Proof.
  rewrite is_space_true, classify_Allowed, is_allowed_true.
  unfold in_allowed_range, ord.
  rewrite !elem_of_cons, !elem_of_nil. lia.
Qed.
